(** * Video-player: proxy gateway and player controller

    A shallow embedding of the two programs of the repository:

    - [src/index.js], the Express gateway with its
      [/api/proxy-get-stream] route;
    - the React Native screen (the file holds the complete component
      [VideoPlayerApp] followed by the body of its later revision, which
      adds the playback state machine).

    Both are JavaScript.  The first part of this file fixes the part of
    the language the handlers use: strings as sequences of UTF-16 code
    units, JSON-like values with [ToBoolean] and property reads, the
    built-ins [String.prototype.trim] and [encodeURIComponent] after
    ECMA-262, and asynchronous functions as resumable programs that
    suspend at each [await].  The handlers follow, written in the order
    and with the names of the source; the properties come last. *)

From Stdlib Require Import List NArith Bool String Ascii Lia.
From Stdlib Require Import Floats.SpecFloat.
Import ListNotations.

#[local] Set Warnings "-register-all".

Local Open Scope N_scope.

(** ** JavaScript data *)

Module JS.

(** A string is a sequence of 16-bit code units. *)
Definition codeunit := N.
Definition jsstring := list codeunit.

(** An ASCII literal of the source, as code units. *)
Definition lit (s : string) : jsstring :=
  map N_of_ascii (list_ascii_of_string s).

(** A literal character outside the Basic Multilingual Plane is held as
    its surrogate pair (the pictographs of the log messages). *)
Definition astral (cp : N) : jsstring :=
  [0xD800 + (cp - 0x10000) / 0x400; 0xDC00 + (cp - 0x10000) mod 0x400].

Fixpoint str_eqb (s t : jsstring) : bool :=
  match s, t with
  | [], [] => true
  | c :: s', d :: t' => (c =? d) && str_eqb s' t'
  | _, _ => false
  end.

(** [s.length === 0] written as a test. *)
Definition is_empty (s : jsstring) : bool :=
  match s with [] => true | _ :: _ => false end.

(** A thrown [Error]: its constructor name and its [message]. *)
Record exn : Type := mkExn { name : jsstring; message : jsstring }.

(** Completion of an evaluation: a value, or a throw. *)
Inductive result (A : Type) : Type :=
| Ok (a : A)
| Raise (e : exn).
Arguments Ok {A} a.
Arguments Raise {A} e.

(** A Number is an IEEE 754 binary64. *)
Definition number := spec_float.
Definition zero : number := S754_zero false.

(** The values the handlers see: [undefined] and what [JSON.parse]
    builds.  An object is its list of own properties in the order of
    their enumeration, keys distinct. *)
Inductive value : Type :=
| VUndefined
| VNull
| VBool (b : bool)
| VNumber (n : number)
| VString (s : jsstring)
| VArray (elements : list value)
| VObject (properties : list (jsstring * value)).

(** ECMA-262 7.1.2 ToBoolean. *)
Definition ToBoolean (v : value) : bool :=
  match v with
  | VUndefined | VNull => false
  | VBool b => b
  | VNumber (S754_zero _) | VNumber S754_nan => false
  | VNumber _ => true
  | VString s => negb (is_empty s)
  | VArray _ | VObject _ => true
  end.

(** [a || b] *)
Definition or_else (a b : value) : value :=
  if ToBoolean a then a else b.

Fixpoint own_property (ps : list (jsstring * value)) (p : jsstring) : value :=
  match ps with
  | [] => VUndefined
  | (k, v) :: ps' => if str_eqb k p then v else own_property ps' p
  end.

(** The text of the TypeError for a property read on [null] or
    [undefined] differs between engines (V8, Hermes, JavaScriptCore); a
    handler is run against the engine it is hosted on. *)
Record Engine : Type := mkEngine {
  cannot_read : jsstring -> value -> jsstring;
  uri_malformed : jsstring
}.

(** [v.p] for a property name [p] that no built-in prototype defines
    (the handlers read [success], [error], [m3u8_url], [headers],
    [Referer] and [User-Agent]): an own property of an object,
    [undefined] on any other value with a prototype, and a TypeError on
    [null] and [undefined]. *)
Definition get (eng : Engine) (v : value) (p : jsstring) : result value :=
  match v with
  | VUndefined | VNull => Raise (mkExn (lit "TypeError") (cannot_read eng p v))
  | VObject ps => Ok (own_property ps p)
  | _ => Ok VUndefined
  end.

(** *** String.prototype.trim *)

(** ECMA-262 WhiteSpace and LineTerminator code points. *)
Definition is_white_space (c : codeunit) : bool :=
  (c =? 0x09) || (c =? 0x0A) || (c =? 0x0B) || (c =? 0x0C) || (c =? 0x0D)
  || (c =? 0x20) || (c =? 0xA0) || (c =? 0x1680)
  || ((0x2000 <=? c) && (c <=? 0x200A))
  || (c =? 0x2028) || (c =? 0x2029) || (c =? 0x202F) || (c =? 0x205F)
  || (c =? 0x3000) || (c =? 0xFEFF).

Fixpoint trim_start (s : jsstring) : jsstring :=
  match s with
  | [] => []
  | c :: s' => if is_white_space c then trim_start s' else s
  end.

Definition trim_end (s : jsstring) : jsstring :=
  rev (trim_start (rev s)).

Definition trim (s : jsstring) : jsstring :=
  trim_end (trim_start s).

(** *** encodeURIComponent (ECMA-262 19.2.6.5, Encode with an empty
    extra set) *)

Definition is_ascii_word (c : codeunit) : bool :=
  ((0x41 <=? c) && (c <=? 0x5A))          (* A-Z *)
  || ((0x61 <=? c) && (c <=? 0x7A))       (* a-z *)
  || ((0x30 <=? c) && (c <=? 0x39))       (* 0-9 *)
  || (c =? 0x5F).                         (* _ *)

(** The marks [- . ! ~ * ' ( )]. *)
Definition is_uri_mark (c : codeunit) : bool :=
  (c =? 0x2D) || (c =? 0x2E) || (c =? 0x21) || (c =? 0x7E) || (c =? 0x2A)
  || (c =? 0x27) || (c =? 0x28) || (c =? 0x29).

Definition always_unescaped (c : codeunit) : bool :=
  is_ascii_word c || is_uri_mark c.

Definition is_leading_surrogate (c : codeunit) : bool :=
  (0xD800 <=? c) && (c <=? 0xDBFF).
Definition is_trailing_surrogate (c : codeunit) : bool :=
  (0xDC00 <=? c) && (c <=? 0xDFFF).

Definition hex_digit (d : N) : codeunit :=
  if d <? 10 then 0x30 + d else 0x41 + (d - 10).

(** ["%XX"], upper-case, for one octet. *)
Definition percent (octet : N) : jsstring :=
  [0x25; hex_digit (octet / 16); hex_digit (octet mod 16)].

Definition utf8 (cp : N) : list N :=
  if cp <? 0x80 then [cp]
  else if cp <? 0x800 then [0xC0 + cp / 0x40; 0x80 + cp mod 0x40]
  else if cp <? 0x10000 then
    [0xE0 + cp / 0x1000; 0x80 + (cp / 0x40) mod 0x40; 0x80 + cp mod 0x40]
  else
    [0xF0 + cp / 0x40000; 0x80 + (cp / 0x1000) mod 0x40;
     0x80 + (cp / 0x40) mod 0x40; 0x80 + cp mod 0x40].

Definition escape (cp : N) : jsstring :=
  List.concat (map percent (utf8 cp)).

Definition surrogate_pair (lead trail : codeunit) : N :=
  (lead - 0xD800) * 0x400 + (trail - 0xDC00) + 0x10000.

(** [None] is the URIError of an unpaired surrogate. *)
Fixpoint encode (s : jsstring) : option jsstring :=
  match s with
  | [] => Some []
  | c :: s' =>
      if always_unescaped c then option_map (cons c) (encode s')
      else if is_trailing_surrogate c then None
      else if is_leading_surrogate c then
        match s' with
        | d :: s'' =>
            if is_trailing_surrogate d
            then option_map (app (escape (surrogate_pair c d))) (encode s'')
            else None
        | [] => None
        end
      else option_map (app (escape c)) (encode s')
  end.

(** The characters of an encoded component: the unescaped ones and
    [%]. *)
Definition url_safe (c : codeunit) : bool :=
  always_unescaped c || (c =? 0x25).

(** [String.prototype.isWellFormed]: no unpaired surrogate. *)
Fixpoint isWellFormed (s : jsstring) : bool :=
  match s with
  | [] => true
  | c :: s' =>
      if is_trailing_surrogate c then false
      else if is_leading_surrogate c then
        match s' with
        | d :: s'' => is_trailing_surrogate d && isWellFormed s''
        | [] => false
        end
      else isWellFormed s'
  end.

Definition encodeURIComponent (eng : Engine) (s : jsstring) : result jsstring :=
  match encode s with
  | Some r => Ok r
  | None => Raise (mkExn (lit "URIError") (uri_malformed eng))
  end.

(** Node.js hosts the gateway: V8's texts. *)
Definition v8 : Engine := {|
  cannot_read p v :=
    lit "Cannot read properties of "
    ++ (match v with VNull => lit "null" | _ => lit "undefined" end)
    ++ lit " (reading '" ++ p ++ lit "')";
  uri_malformed := lit "URI malformed"
|}.

(** *** JSON.stringify

    What a reader of the text [JSON.stringify(v)] gets: [v] with every
    number that is not finite written as [null], the negative zero as
    [0], an [undefined] element of an array as [null] and an
    [undefined] property left out.  ([undefined] itself has no text.)
    The spelling of the text (white space, the digits of a number) is
    below these values. *)
Definition kept (k : jsstring) (v : value) : list (jsstring * value) :=
  match v with
  | VUndefined => []
  | _ => [(k, v)]
  end.

Fixpoint serialized (v : value) : value :=
  match v with
  | VUndefined => VUndefined
  | VNull => VNull
  | VBool b => VBool b
  | VNumber (S754_zero _) => VNumber (S754_zero false)
  | VNumber (S754_finite s m e) => VNumber (S754_finite s m e)
  | VNumber _ => VNull
  | VString s => VString s
  | VArray l =>
      VArray (map (fun x => match serialized x with
                            | VUndefined => VNull
                            | y => y
                            end) l)
  | VObject ps =>
      VObject (flat_map (fun kv => match kv with
                                   | (k, x) => kept k (serialized x)
                                   end) ps)
  end.

(** The values that [JSON.stringify] writes as they are. *)
Fixpoint exact (v : value) : bool :=
  match v with
  | VUndefined => false
  | VNull | VBool _ | VString _ => true
  | VNumber (S754_zero s) => negb s
  | VNumber (S754_finite _ _ _) => true
  | VNumber _ => false
  | VArray l => forallb exact l
  | VObject ps => forallb (fun kv => match kv with (_, x) => exact x end) ps
  end.

End JS.

Import JS.

(** ** Asynchronous handlers

    An [async] function runs until its first [await], is suspended
    while the awaited promise is pending, and is resumed with the
    promise's settlement.  A handler is a finite program over the
    component state [S] and its immediate effects [E]; the two awaited
    operations are [fetch(url)] and [response.json()]. *)

Module Async.

(** What the handlers use of a fetch Response: the settlement of its
    [json()] promise (the parsed body, or the SyntaxError of a body
    that is not JSON). *)
Record Response : Type := mkResponse { json : result value }.

Inductive prog (S E A : Type) : Type :=
| Ret (a : A)
| Throw (e : exn)
| Read (k : S -> prog S E A)
| Update (f : S -> S) (k : prog S E A)
| Perform (e : E) (k : prog S E A)
| AwaitFetch (url : jsstring) (k : result Response -> prog S E A)
| AwaitJson (r : Response) (k : result value -> prog S E A).
Arguments Ret {S E A} a.
Arguments Throw {S E A} e.
Arguments Read {S E A} k.
Arguments Update {S E A} f k.
Arguments Perform {S E A} e k.
Arguments AwaitFetch {S E A} url k.
Arguments AwaitJson {S E A} r k.

Fixpoint bind {S E A B} (p : prog S E A) (f : A -> prog S E B) : prog S E B :=
  match p with
  | Ret a => f a
  | Throw e => Throw e
  | Read k => Read (fun s => bind (k s) f)
  | Update g k => Update g (bind k f)
  | Perform e k => Perform e (bind k f)
  | AwaitFetch url k => AwaitFetch url (fun r => bind (k r) f)
  | AwaitJson r k => AwaitJson r (fun x => bind (k x) f)
  end.

(** [try { p } catch (err) { h err }] *)
Fixpoint try_catch {S E A} (p : prog S E A) (h : exn -> prog S E A) : prog S E A :=
  match p with
  | Ret a => Ret a
  | Throw e => h e
  | Read k => Read (fun s => try_catch (k s) h)
  | Update g k => Update g (try_catch k h)
  | Perform e k => Perform e (try_catch k h)
  | AwaitFetch url k => AwaitFetch url (fun r => try_catch (k r) h)
  | AwaitJson r k => AwaitJson r (fun x => try_catch (k x) h)
  end.

(** [try { p } finally { f }]: [f] runs on either completion of [p],
    which is then resumed. *)
Fixpoint finally {S E A} (p : prog S E A) (f : prog S E unit) : prog S E A :=
  match p with
  | Ret a => bind f (fun _ => Ret a)
  | Throw e => bind f (fun _ => Throw e)
  | Read k => Read (fun s => finally (k s) f)
  | Update g k => Update g (finally k f)
  | Perform e k => Perform e (finally k f)
  | AwaitFetch url k => AwaitFetch url (fun r => finally (k r) f)
  | AwaitJson r k => AwaitJson r (fun x => finally (k x) f)
  end.

Definition lift {S E A} (r : result A) : prog S E A :=
  match r with
  | Ok a => Ret a
  | Raise e => Throw e
  end.

(** A handler sees the cells as of the render that created it.  The
    widget and the buttons are handed the handlers of the latest
    render, so what a handler reads at its call is the current state.
    This takes a render between two calls: a callback that is called
    again before the screen has rendered reads the cells of the older
    render, which [read] does not show. *)
Definition read {S E} : prog S E S := Read Ret.
Definition update {S E} (f : S -> S) : prog S E unit := Update f (Ret tt).
Definition perform {S E} (e : E) : prog S E unit := Perform e (Ret tt).

(** [await fetch(url)] and [await response.json()]: a rejection is
    thrown at the [await]. *)
Definition await_fetch {S E} (url : jsstring) : prog S E Response :=
  AwaitFetch url lift.
Definition await_json {S E} (r : Response) : prog S E value :=
  AwaitJson r lift.

(** What a run shows to the outside, in order. *)
Inductive obs (E : Type) : Type :=
| Effect (e : E)
| FetchGET (url : jsstring).
Arguments Effect {E} e.
Arguments FetchGET {E} url.

Record outcome (S E A : Type) : Type := mkOutcome {
  final : S;
  trace : list (obs E);
  completion : result A
}.
Arguments mkOutcome {S E A} final trace completion.
Arguments final {S E A} o.
Arguments trace {S E A} o.
Arguments completion {S E A} o.

Definition observed {S E A} (o : obs E) (r : outcome S E A) : outcome S E A :=
  mkOutcome (final r) (o :: trace r) (completion r).

(** A run to completion.  [fetch] is the network: the settlement of the
    promise for each URL.  While the handler is suspended the event
    loop may run other handlers on the same state: [others] lists what
    they do to it, one entry for each suspension in turn (none left:
    nothing else ran).

    A setter only writes its cell: the updates of a handler are
    batched and the screen renders once the handler has returned or
    is suspended, as on a concurrent React root.  On a legacy root a
    setter called after an [await] renders at once, and a throw of
    that render is raised at the setter, inside the handler; a run
    does not show this. *)
Fixpoint exec {S E A} (fetch : jsstring -> result Response)
    (others : list (S -> S)) (p : prog S E A) (st : S) : outcome S E A :=
  match p with
  | Ret a => mkOutcome st [] (Ok a)
  | Throw e => mkOutcome st [] (Raise e)
  | Read k => exec fetch others (k st) st
  | Update f k => exec fetch others k (f st)
  | Perform e k => observed (Effect e) (exec fetch others k st)
  | AwaitFetch url k =>
      observed (FetchGET url)
        (exec fetch (tl others) (k (fetch url)) (hd (fun s => s) others st))
  | AwaitJson r k =>
      exec fetch (tl others) (k (json r)) (hd (fun s => s) others st)
  end.

(** The run in which no other handler is interleaved. *)
Definition run {S E A} (fetch : jsstring -> result Response)
    (p : prog S E A) (st : S) : outcome S E A :=
  exec fetch [] p st.

End Async.

Import Async.

Declare Scope prog_scope.
Delimit Scope prog_scope with prog.
Notation "x <- p ;; q" := (bind p (fun x => q))
  (at level 61, p at next level, right associativity) : prog_scope.
Notation "p ;; q" := (bind p (fun _ => q))
  (at level 61, right associativity) : prog_scope.

(** ** The gateway: [src/index.js] *)

Module Gateway.

Local Open Scope prog_scope.

(** [req.query.title] as the query parser of Express leaves it: absent,
    a string ([?title=x]), an array ([?title=a&title=b]) or an object
    ([?title[k]=x]). *)
Inductive query_value : Type :=
| QUndefined
| QString (s : jsstring)
| QArray (elements : list query_value)
| QObject (properties : list (jsstring * query_value)).

Definition truthy (q : query_value) : bool :=
  match q with
  | QUndefined => false
  | QString s => negb (is_empty s)
  | QArray _ | QObject _ => true
  end.

Fixpoint has_own (ps : list (jsstring * query_value)) (p : jsstring) : bool :=
  match ps with
  | [] => false
  | (k, _) :: ps' => str_eqb k p || has_own ps' p
  end.

Definition cannot_convert : exn :=
  mkExn (lit "TypeError") (lit "Cannot convert object to primitive value").

(** [Array.prototype.join] with a comma, on the strings of the
    elements: the first throw, if any, is the result. *)
Fixpoint join (parts : list (result jsstring)) : result jsstring :=
  match parts with
  | [] => Ok []
  | Raise e :: _ => Raise e
  | Ok s :: rest =>
      match rest with
      | [] => Ok s
      | _ :: _ =>
          match join rest with
          | Ok t => Ok (s ++ lit "," ++ t)
          | Raise e => Raise e
          end
      end
  end.

(** ECMA-262 ToString on these values.  An array is joined with commas,
    an absent element giving the empty string; a plain object is
    ["[object Object]"], unless an own [toString] property (a parsed
    value, so not callable) hides [Object.prototype.toString]: then
    OrdinaryToPrimitive finds no primitive and throws. *)
Fixpoint ToString (q : query_value) : result jsstring :=
  match q with
  | QUndefined => Ok (lit "undefined")
  | QString s => Ok s
  | QArray l =>
      join (map (fun x => match x with QUndefined => Ok [] | _ => ToString x end) l)
  | QObject ps =>
      if has_own ps (lit "toString") then Raise cannot_convert
      else Ok (lit "[object Object]")
  end.

Inductive effect : Type :=
| Send (status : N) (body : value).

(** [res.json(body)]: the reply is the text [JSON.stringify(body)],
    held here as the value a reader of that text gets.  No handler sets
    [res.statusCode], so it goes out with the default 200. *)
Definition res_json (body : value) : prog unit effect unit :=
  perform (Send 200 (serialized body)).

(** [{ success: false, error: msg }] *)
Definition failure (msg : jsstring) : value :=
  VObject [(lit "success", VBool false); (lit "error", VString msg)].

Definition upstream : jsstring :=
  lit "https://u-1-1azw.onrender.com/api/get-stream?title=".

(** [app.get('/api/proxy-get-stream', async (req, res) => ...)], on the
    [title] of [req.query]. *)
Definition proxy_get_stream (title : query_value) : prog unit effect unit :=
  try_catch
    (if negb (truthy title) then
       res_json (failure (lit "Title parameter required"))
     else
       s <- lift (ToString title) ;;
       encoded <- lift (encodeURIComponent v8 s) ;;
       response <- await_fetch (upstream ++ encoded) ;;
       data <- await_json response ;;
       res_json data)
    (fun error => res_json (failure (message error))).

(** [app.get('/health', ...)] *)
Definition health : prog unit effect unit :=
  res_json (VObject [(lit "status", VString (lit "OK"));
                     (lit "service", VString (lit "Video Player Web"))]).

(** The reply of the route to one request. *)
Definition serve (fetch : jsstring -> result Response) (title : query_value)
  : outcome unit effect unit :=
  run fetch (proxy_get_stream title) tt.

(** The two shapes of a finished request: a reply with no outbound
    call, and one outbound GET followed by the reply. *)
Definition replied (body : value) : outcome unit effect unit :=
  mkOutcome tt [Effect (Send 200 body)] (Ok tt).
Definition relayed (url : jsstring) (body : value) : outcome unit effect unit :=
  mkOutcome tt [FetchGET url; Effect (Send 200 body)] (Ok tt).

Definition title_required : value :=
  failure (lit "Title parameter required").

End Gateway.

(** ** The player screen *)

(** What the screen does to the platform besides updating its state. *)
Module Native.

Inductive effect : Type :=
| ConsoleLog (args : list value)
| AlertAlert (title : jsstring) (message : value)
| LockToLandscape
| LockToPortrait
| VideoSeek (time : number).

Definition console_log {S} (args : list value) : prog S effect unit :=
  perform (ConsoleLog args).
Definition Alert_alert {S} (title : jsstring) (message : value)
  : prog S effect unit :=
  perform (AlertAlert title message).

(** Your working API *)
Definition API_BASE_URL : jsstring := lit "https://u-1-1azw.onrender.com".

(** The [source] prop handed to the video widget. *)
Record Source : Type := mkSource {
  uri : value;
  Referer : value;
  User_Agent : value
}.

Definition non_empty_string (v : value) : bool :=
  match v with
  | VString s => negb (is_empty s)
  | _ => false
  end.

(** The field [p] of a response body: [undefined] when the body has no
    such field. *)
Definition field (data : value) (p : jsstring) : value :=
  match data with
  | VObject ps => own_property ps p
  | _ => VUndefined
  end.

(** The StreamDescriptor of the upstream API: an object whose [success]
    is a boolean, whose [video_id] and [m3u8_url] are non-empty strings
    and whose [headers] is an object with non-empty strings [Referer]
    and [User-Agent]. *)
Definition well_formed (data : value) : bool :=
  match data with
  | VObject ps =>
      match own_property ps (lit "success"), own_property ps (lit "headers") with
      | VBool _, VObject hs =>
          non_empty_string (own_property ps (lit "video_id"))
          && non_empty_string (own_property ps (lit "m3u8_url"))
          && non_empty_string (own_property hs (lit "Referer"))
          && non_empty_string (own_property hs (lit "User-Agent"))
      | _, _ => false
      end
  | _ => false
  end.

(** The bodies of the scenarios: the descriptor for
    [wednesday.s01e03] and an upstream failure. *)
Definition descriptor : value :=
  VObject [(lit "success", VBool true);
           (lit "video_id", VString (lit "abc"));
           (lit "m3u8_url", VString (lit "https://x/y.m3u8"));
           (lit "headers",
            VObject [(lit "Referer", VString (lit "r"));
                     (lit "User-Agent", VString (lit "u"))])].

Definition not_found : value :=
  VObject [(lit "success", VBool false); (lit "error", VString (lit "Not found"))].

(** A network that answers every request with the JSON [body]. *)
Definition answering (body : value) (url : jsstring) : result Response :=
  Ok (mkResponse (Ok body)).

(** A network on which every [fetch] rejects with [e]. *)
Definition rejecting (e : exn) (url : jsstring) : result Response :=
  Raise e.

End Native.

Import Native.

(** *** The component [VideoPlayerApp] (lines 24-227) *)

Module VideoPlayerApp.

Local Open Scope prog_scope.

(** The [useState] cells. *)
Record State : Type := mkState {
  streamData : value;
  loading : bool;
  error : value;
  title : jsstring;
  isFullscreen : bool
}.

Definition initial : State := mkState VNull false VNull [] false.

Definition setStreamData (v : value) (st : State) : State :=
  mkState v (loading st) (error st) (title st) (isFullscreen st).
Definition setLoading (b : bool) (st : State) : State :=
  mkState (streamData st) b (error st) (title st) (isFullscreen st).
Definition setError (v : value) (st : State) : State :=
  mkState (streamData st) (loading st) v (title st) (isFullscreen st).
Definition setTitle (s : jsstring) (st : State) : State :=
  mkState (streamData st) (loading st) (error st) s (isFullscreen st).
Definition setIsFullscreen (b : bool) (st : State) : State :=
  mkState (streamData st) (loading st) (error st) (title st) b.

Section Hosted.

Variable eng : Engine.

(** The URL of line 43. *)
Definition stream_url (title : jsstring) : result jsstring :=
  match encodeURIComponent eng (trim title) with
  | Ok encoded => Ok (API_BASE_URL ++ lit "/api/get-stream?title=" ++ encoded)
  | Raise e => Raise e
  end.

(** [fetchStream] reads [title] from the render that created it.  The
    Play button and the text field are handed the handler of the latest
    render, whose [title] is the current cell; a quick-play button calls,
    100 ms after [setTitle(example)], the handler it captured with the
    title of before.  The handler is therefore a function of the title
    it captured. *)
Definition fetchStream (title : jsstring) : prog State effect unit :=
  if is_empty (trim title) then
    Alert_alert (lit "Error") (VString (lit "Please enter movie/series title"))
  else
    update (setLoading true) ;;
    update (setError VNull) ;;
    update (setStreamData VNull) ;;
    finally
      (try_catch
         (url <- lift (stream_url title) ;;
          console_log [VString (astral 0x1F50D ++ lit " Searching for:");
                       VString title] ;;
          console_log [VString (astral 0x1F4E1 ++ lit " API URL:"); VString url] ;;
          response <- await_fetch url ;;
          data <- await_json response ;;
          console_log [VString (astral 0x1F4E6 ++ lit " Full API Response:"); data] ;;
          success <- lift (get eng data (lit "success")) ;;
          if ToBoolean success then
            update (setStreamData data)
          else
            data_error <- lift (get eng data (lit "error")) ;;
            update (setError data_error) ;;
            Alert_alert (lit "Error")
              (or_else data_error (VString (lit "Failed to get stream"))))
         (fun err =>
            update (setError (VString (lit "Network error: " ++ message err))) ;;
            Alert_alert (lit "Network Error")
              (VString (lit "Cannot connect to API server"))))
      (update (setLoading false)).

End Hosted.

Definition onEnterFullscreen : prog State effect unit :=
  perform LockToLandscape ;;
  update (setIsFullscreen true).

Definition onExitFullscreen : prog State effect unit :=
  perform LockToPortrait ;;
  update (setIsFullscreen false).

Definition onError (error : value) : prog State effect unit :=
  console_log [VString (0x274C :: lit " Video Error:"); error] ;;
  Alert_alert (lit "Playback Error") (VString (lit "Failed to play video stream")).

Definition clearAll : prog State effect unit :=
  update (setTitle []) ;;
  update (setStreamData VNull) ;;
  update (setError VNull).

End VideoPlayerApp.

(** *** The revision with media controls (lines 394-661)

    The source holds the handlers and the render of this revision, not
    its head: the imports and the [useState] declarations are missing. *)

Module MediaPlayer.

Local Open Scope prog_scope.

(** Modelled from the spec: the enumeration [PLAYER_STATES] that the
    handlers name, imported in the missing head
    ([playerState] (enum: PLAYING | PAUSED | ENDED)). *)
Inductive PLAYER_STATES : Type := PLAYING | PAUSED | ENDED.

Definition PLAYER_STATES_eqb (a b : PLAYER_STATES) : bool :=
  match a, b with
  | PLAYING, PLAYING | PAUSED, PAUSED | ENDED, ENDED => true
  | _, _ => false
  end.

(** Modelled from the spec: the [useState] cells declared in the
    missing head, one for each setter and variable the handlers and the
    render use; [loading] is the flag of the fetch and [isLoading] the
    flag of the video widget. *)
Record State : Type := mkState {
  streamData : value;
  loading : bool;
  error : value;
  title : jsstring;
  isFullscreen : bool;
  playerState : PLAYER_STATES;
  currentTime : number;
  duration : number;
  isLoading : bool
}.

(** Modelled from the spec: the initial values of the cells
    (States: [PAUSED] (initial)), the others as in [VideoPlayerApp]. *)
Definition initial : State :=
  mkState VNull false VNull [] false PAUSED zero zero false.

Definition setStreamData (v : value) (st : State) : State :=
  mkState v (loading st) (error st) (title st) (isFullscreen st)
    (playerState st) (currentTime st) (duration st) (isLoading st).
Definition setLoading (b : bool) (st : State) : State :=
  mkState (streamData st) b (error st) (title st) (isFullscreen st)
    (playerState st) (currentTime st) (duration st) (isLoading st).
Definition setError (v : value) (st : State) : State :=
  mkState (streamData st) (loading st) v (title st) (isFullscreen st)
    (playerState st) (currentTime st) (duration st) (isLoading st).
Definition setTitle (s : jsstring) (st : State) : State :=
  mkState (streamData st) (loading st) (error st) s (isFullscreen st)
    (playerState st) (currentTime st) (duration st) (isLoading st).
Definition setIsFullscreen (b : bool) (st : State) : State :=
  mkState (streamData st) (loading st) (error st) (title st) b
    (playerState st) (currentTime st) (duration st) (isLoading st).
Definition setPlayerState (p : PLAYER_STATES) (st : State) : State :=
  mkState (streamData st) (loading st) (error st) (title st) (isFullscreen st)
    p (currentTime st) (duration st) (isLoading st).
Definition setCurrentTime (t : number) (st : State) : State :=
  mkState (streamData st) (loading st) (error st) (title st) (isFullscreen st)
    (playerState st) t (duration st) (isLoading st).
Definition setDuration (d : number) (st : State) : State :=
  mkState (streamData st) (loading st) (error st) (title st) (isFullscreen st)
    (playerState st) (currentTime st) d (isLoading st).
Definition setIsLoading (b : bool) (st : State) : State :=
  mkState (streamData st) (loading st) (error st) (title st) (isFullscreen st)
    (playerState st) (currentTime st) (duration st) b.

Section Hosted.

Variable eng : Engine.

(** The URL of line 406. *)
Definition stream_url (title : jsstring) : result jsstring :=
  match encodeURIComponent eng (trim title) with
  | Ok encoded => Ok (API_BASE_URL ++ lit "/api/get-stream?title=" ++ encoded)
  | Raise e => Raise e
  end.

Definition fetchStream (title : jsstring) : prog State effect unit :=
  if is_empty (trim title) then
    Alert_alert (lit "Error") (VString (lit "Please enter movie/series title"))
  else
    update (setLoading true) ;;
    update (setError VNull) ;;
    update (setStreamData VNull) ;;
    update (setIsLoading true) ;;
    finally
      (try_catch
         (url <- lift (stream_url title) ;;
          console_log [VString (astral 0x1F50D ++ lit " Searching for:");
                       VString title] ;;
          console_log [VString (astral 0x1F4E1 ++ lit " API URL:"); VString url] ;;
          response <- await_fetch url ;;
          data <- await_json response ;;
          console_log [VString (astral 0x1F4E6 ++ lit " Full API Response:"); data] ;;
          success <- lift (get eng data (lit "success")) ;;
          if ToBoolean success then
            update (setStreamData data) ;;
            update (setPlayerState PLAYING) ;;
            headers <- lift (get eng data (lit "headers")) ;;
            console_log [VString (0x2705 :: lit " Stream ready! Headers:"); headers] ;;
            m3u8_url <- lift (get eng data (lit "m3u8_url")) ;;
            console_log [VString (astral 0x1F3AF ++ lit " M3U8 URL:"); m3u8_url]
          else
            data_error <- lift (get eng data (lit "error")) ;;
            update (setError data_error) ;;
            Alert_alert (lit "Error")
              (or_else data_error (VString (lit "Failed to get stream"))))
         (fun err =>
            update (setError (VString (lit "Network error: " ++ message err))) ;;
            Alert_alert (lit "Network Error")
              (VString (lit "Cannot connect to API server"))))
      (update (setLoading false)).

(** The [source] of the [Video] element (lines 508-514), which the
    render builds while [streamData] is truthy. *)
Definition source (st : State) : result Source :=
  match get eng (streamData st) (lit "m3u8_url"),
        get eng (streamData st) (lit "headers") with
  | Ok m3u8_url, Ok headers =>
      match get eng headers (lit "Referer"), get eng headers (lit "User-Agent") with
      | Ok referer, Ok user_agent => Ok (mkSource m3u8_url referer user_agent)
      | Raise e, _ | _, Raise e => Raise e
      end
  | Raise e, _ | _, Raise e => Raise e
  end.

End Hosted.

(** [paused={playerState !== PLAYER_STATES.PLAYING}] *)
Definition paused (st : State) : bool :=
  negb (PLAYER_STATES_eqb (playerState st) PLAYING).

(** The payloads of the widget's callbacks, as far as the handlers read
    them: [data.currentTime] of [onProgress] and [data.duration] of
    [onLoad]. *)
Record OnProgressData : Type := { progress_currentTime : number }.
Record OnLoadData : Type := { load_duration : number }.

(** [videoRef.current.seek(time)].  The controls that call [onSeek] and
    [onReplay] are rendered next to the [Video] element that holds the
    ref, so [videoRef.current] is the mounted widget. *)
Definition videoRef_current_seek (time : number) : prog State effect unit :=
  perform (VideoSeek time).

Definition onSeek (seek : number) : prog State effect unit :=
  videoRef_current_seek seek.

Definition onPaused (playerState : PLAYER_STATES) : prog State effect unit :=
  update (setPlayerState playerState).

Definition onReplay : prog State effect unit :=
  update (setPlayerState PLAYING) ;;
  videoRef_current_seek zero.

Definition onProgress (data : OnProgressData) : prog State effect unit :=
  st <- read ;;
  if negb (isLoading st) && negb (PLAYER_STATES_eqb (playerState st) ENDED) then
    update (setCurrentTime (progress_currentTime data))
  else Ret tt.

Definition onLoad (data : OnLoadData) : prog State effect unit :=
  console_log [VString (0x2705 :: lit " Video loaded successfully")] ;;
  update (setDuration (load_duration data)) ;;
  update (setIsLoading false).

Definition onLoadStart : prog State effect unit :=
  console_log [VString (astral 0x1F504 ++ lit " Video loading started")] ;;
  update (setIsLoading true).

Definition onEnd : prog State effect unit :=
  console_log [VString (astral 0x1F3C1 ++ lit " Video ended")] ;;
  update (setPlayerState ENDED).

Definition onSeeking (currentTime : number) : prog State effect unit :=
  update (setCurrentTime currentTime).

Definition onBuffer (isBuffering : bool) : prog State effect unit :=
  console_log [VString (if isBuffering
                        then astral 0x1F504 ++ lit " Buffering..."
                        else 0x2705 :: lit " Buffering ended")].

Definition onError (error : value) : prog State effect unit :=
  console_log [VString (0x274C :: lit " Video Error:"); error] ;;
  Alert_alert (lit "Playback Error")
    (VString (lit "Failed to play video stream. Check if headers are working.")) ;;
  update (setIsLoading false).

Definition clearAll : prog State effect unit :=
  update (setTitle []) ;;
  update (setStreamData VNull) ;;
  update (setError VNull) ;;
  update (setPlayerState PAUSED) ;;
  update (setCurrentTime zero).

(** The text field: [onChangeText={setTitle}] and
    [onSubmitEditing={fetchStream}].  The field stays enabled while a
    fetch is pending. *)
Definition onChangeText (text : jsstring) : prog State effect unit :=
  update (setTitle text).

(** A handler stores no descriptor: where none was stored there is
    none afterwards. *)
Definition stores_no_descriptor (f : State -> State) : Prop :=
  forall st, streamData st = VNull -> streamData (f st) = VNull.

(** *** Two overlapping calls

    The user submits the title [slow], and while that call awaits the
    network types and submits [wednesday.s01e03]; the second call is
    answered first, with a descriptor, and the first one afterwards,
    with a failure. *)
Module Overlap.

Definition slow_url : jsstring :=
  API_BASE_URL ++ lit "/api/get-stream?title=slow".

Definition network (url : jsstring) : result Response :=
  if str_eqb url slow_url then Ok (mkResponse (Ok not_found))
  else Ok (mkResponse (Ok descriptor)).

Definition first_submitted : State := setTitle (lit "slow") initial.

(** What runs while the first call awaits [fetch]: the new title is
    typed and submitted, and that call runs to its end. *)
Definition second_call (st : State) : State :=
  final (run network (fetchStream v8 (lit "wednesday.s01e03"))
           (final (run network (onChangeText (lit "wednesday.s01e03")) st))).

Definition first_call : outcome State effect unit :=
  exec network [second_call] (fetchStream v8 (lit "slow")) first_submitted.

End Overlap.

End MediaPlayer.

(** ** The event loop

    One handler at a time runs, up to its end or its next [await]; a
    suspended handler is resumed, as a later task, with the settlement
    of the promise it awaits. *)

Module Loop.

(** A suspended call: the promise it awaits and the rest of the
    handler. *)
Inductive pending (S E : Type) : Type :=
| OnFetch (url : jsstring) (k : result Response -> prog S E unit)
| OnJson (r : Response) (k : result value -> prog S E unit).
Arguments OnFetch {S E} url k.
Arguments OnJson {S E} r k.

Inductive stop (S E : Type) : Type :=
| Completed (c : result unit)
| Awaiting (w : pending S E).
Arguments Completed {S E} c.
Arguments Awaiting {S E} w.

(** What one task leaves: the state, what it showed, and where it
    stopped. *)
Record slice (S E : Type) : Type := mkSlice {
  after : S;
  shown : list (obs E);
  stopped : stop S E
}.
Arguments mkSlice {S E} after shown stopped.
Arguments after {S E} s.
Arguments shown {S E} s.
Arguments stopped {S E} s.

(** The task that starts at [p]: up to the end of [p] or its first
    [await].  The request of a [fetch] goes out in the task that calls
    it. *)
Fixpoint segment {S E} (p : prog S E unit) (st : S) : slice S E :=
  match p with
  | Ret a => mkSlice st [] (Completed (Ok a))
  | Throw e => mkSlice st [] (Completed (Raise e))
  | Read k => segment (k st) st
  | Update f k => segment k (f st)
  | Perform e k =>
      mkSlice (after (segment k st)) (Effect e :: shown (segment k st))
        (stopped (segment k st))
  | AwaitFetch url k => mkSlice st [FetchGET url] (Awaiting (OnFetch url k))
  | AwaitJson r k => mkSlice st [] (Awaiting (OnJson r k))
  end.

(** The rest of a suspended call once its promise has settled; the
    settlement of [response.json()] is the response's. *)
Definition resumed {S E} (w : pending S E) (fetched : result Response)
  : prog S E unit :=
  match w with
  | OnFetch _ k => k fetched
  | OnJson r k => k (json r)
  end.

(** [keeps I p st]: started in [st], the handler [p] leaves a state in
    [I] at each of its suspensions and at its end, as long as it is
    resumed in states that are in [I]. *)
Fixpoint keeps {S E} (I : S -> Prop) (p : prog S E unit) (st : S) : Prop :=
  match p with
  | Ret _ | Throw _ => I st
  | Read k => keeps I (k st) st
  | Update f k => keeps I k (f st)
  | Perform _ k => keeps I k st
  | AwaitFetch _ k => I st /\ forall res st', I st' -> keeps I (k res) st'
  | AwaitJson _ k => I st /\ forall res st', I st' -> keeps I (k res) st'
  end.

Definition resumes_keeping {S E} (I : S -> Prop) (w : pending S E) : Prop :=
  forall fetched st, I st -> keeps I (resumed w fetched) st.

(** Callbacks that do not await, delivered one after the other, each
    one bound by a render of the state the one before left. *)
Fixpoint deliver {S E} (ps : list (prog S E unit)) (st : S)
  : S * list (obs E) :=
  match ps with
  | [] => (st, [])
  | p :: ps' =>
      (fst (deliver ps' (after (segment p st))),
       shown (segment p st) ++ snd (deliver ps' (after (segment p st))))
  end.

End Loop.

Import Loop.

(** ** The screen with media controls, as a whole *)

Module Screen.

Import MediaPlayer.

Local Open Scope prog_scope.

(** What can happen on the screen.  [CallFetchStream] is a call of
    [fetchStream] by the Play button, by the text field or by the timer
    of a quick-play button, with the title that handler captured. *)
Inductive event : Type :=
| CallFetchStream (title : jsstring)
| ChangeText (text : jsstring)
| PressExample (example : jsstring)
| PressClear
| VideoLoad (data : OnLoadData)
| VideoLoadStart
| VideoProgress (data : OnProgressData)
| VideoEnd
| VideoBuffer (isBuffering : bool)
| VideoError (error : value)
| ControlsPaused (playerState : PLAYER_STATES)
| ControlsReplay
| ControlsSeek (seek : number)
| ControlsSeeking (currentTime : number)
| ControlsEnterFullscreen
| ControlsExitFullscreen.

(** The handler the render binds to each of them (lines 518-523,
    541-546, 586-611 and 637-640). *)
Definition handler (eng : Engine) (ev : event) : prog State effect unit :=
  match ev with
  | CallFetchStream title => fetchStream eng title
  | ChangeText text => onChangeText text
  | PressExample example => update (setTitle example)
  | PressClear => clearAll
  | VideoLoad data => onLoad data
  | VideoLoadStart => onLoadStart
  | VideoProgress data => onProgress data
  | VideoEnd => onEnd
  | VideoBuffer isBuffering => onBuffer isBuffering
  | VideoError error => onError error
  | ControlsPaused playerState => onPaused playerState
  | ControlsReplay => onReplay
  | ControlsSeek seek => onSeek seek
  | ControlsSeeking currentTime => onSeeking currentTime
  | ControlsEnterFullscreen => update (setIsFullscreen true)
  | ControlsExitFullscreen => update (setIsFullscreen false)
  end.

(** The events whose handler runs in one task and has no
    [setCurrentTime]: all but the calls of [fetchStream], [onProgress],
    [onSeeking] and [clearAll].  None of these handlers reads a cell. *)
Definition leaves_currentTime (ev : event) : bool :=
  match ev with
  | CallFetchStream _ | VideoProgress _ | ControlsSeeking _ | PressClear => false
  | _ => true
  end.

(** The cells and the calls that are suspended. *)
Record screen : Type := mkScreen {
  cells : State;
  calls : list (pending State effect)
}.

Definition suspend (s : stop State effect) (calls : list (pending State effect))
  : list (pending State effect) :=
  match s with
  | Awaiting w => w :: calls
  | Completed _ => calls
  end.

(** One task of the event loop: an event is handled up to the end of
    its handler or its first [await], or a suspended call is resumed,
    whichever call it is and however its [fetch] settled. *)
Inductive step (eng : Engine) : screen -> screen -> Prop :=
| step_event (ev : event) (s : screen) :
    step eng s
      (mkScreen (after (segment (handler eng ev) (cells s)))
         (suspend (stopped (segment (handler eng ev) (cells s))) (calls s)))
| step_resume (st : State) (before later : list (pending State effect))
    (w : pending State effect) (fetched : result Response) :
    step eng (mkScreen st (before ++ w :: later))
      (mkScreen (after (segment (resumed w fetched) st))
         (suspend (stopped (segment (resumed w fetched) st)) (before ++ later))).

(** The screens at the task boundaries: the states between two tasks,
    not the ones a handler goes through within a task. *)
Inductive reachable (eng : Engine) : screen -> Prop :=
| reachable_initial : reachable eng (mkScreen initial [])
| reachable_step (s s' : screen) :
    reachable eng s -> step eng s s' -> reachable eng s'.

(** What holds of the cells at every task boundary: while [loading] is
    set no descriptor is stored, and a stored descriptor is a body whose
    [success] is truthy. *)
Definition consistent (st : State) : Prop :=
  (loading st = true -> streamData st = VNull)
  /\ (streamData st = VNull
      \/ ToBoolean (field (streamData st) (lit "success")) = true).

(** *** What the render shows *)

(** [streamData ? <Video .../> : <placeholder>] (line 504) *)
Definition video_mounted (st : State) : bool := ToBoolean (streamData st).

(** [loading ? 'Loading...' : streamData ? 'Playing' : 'Ready'] (line 654) *)
Definition status (st : State) : jsstring :=
  if loading st then lit "Loading..."
  else if ToBoolean (streamData st) then lit "Playing"
  else lit "Ready".





(** *** The quick-play buttons (lines 633-645)

    [onPress] sets the title and arms a timer; 100 ms later the timer
    calls the [fetchStream] of the render the button belongs to, whose
    [title] is the one of that render. *)
Definition examples : list jsstring :=
  [lit "wednesday.s01e03"; lit "avengers.endgame"; lit "oppenheimer.2023";
   lit "series.s01e01"].

Definition onPressExample (example : jsstring) : prog State effect unit :=
  update (setTitle example).

Definition example_timer (eng : Engine) (rendered : State)
  : prog State effect unit :=
  fetchStream eng (title rendered).

End Screen.

(** *** The fullscreen callbacks of [VideoPlayerApp] (lines 108-109) *)

Module Fullscreen.

Import VideoPlayerApp.

Inductive callback : Type := Enter | Exit.

Definition handler (c : callback) : prog State effect unit :=
  match c with
  | Enter => onEnterFullscreen
  | Exit => onExitFullscreen
  end.

(** The orientation lock an effect asks for, if it is one. *)
Definition lock (o : obs effect) : option bool :=
  match o with
  | Effect LockToLandscape => Some true
  | Effect LockToPortrait => Some false
  | _ => None
  end.

End Fullscreen.

(** ** Reading an encoded component back

    The inverse of [encode] on what [encode] produces: escapes are read
    as UTF-8 octets, the rest as it stands.  It serves to show that
    titles do not collide; it is not the [decodeURIComponent] of the
    language, which also has to reject what [encode] never writes. *)

Module Decoding.

Definition unhex (c : codeunit) : N :=
  if c <? 0x41 then c - 0x30 else c - 0x41 + 10.

Definition octet_of (h l : codeunit) : N := 16 * unhex h + unhex l.

Definition utf16 (cp : N) : jsstring :=
  if cp <? 0x10000 then [cp]
  else [0xD800 + (cp - 0x10000) / 0x400; 0xDC00 + (cp - 0x10000) mod 0x400].

Definition code_point (b1 b2 b3 b4 : N) : N :=
  if b1 <? 0x80 then b1
  else if b1 <? 0xE0 then (b1 - 0xC0) * 0x40 + (b2 - 0x80)
  else if b1 <? 0xF0 then (b1 - 0xE0) * 0x1000 + (b2 - 0x80) * 0x40 + (b3 - 0x80)
  else (b1 - 0xF0) * 0x40000 + (b2 - 0x80) * 0x1000 + (b3 - 0x80) * 0x40 + (b4 - 0x80).

Fixpoint decode (s : jsstring) : option jsstring :=
  match s with
  | [] => Some []
  | c :: s1 =>
      if negb (c =? 0x25) then option_map (cons c) (decode s1)
      else
        match s1 with
        | h1 :: l1 :: s2 =>
            if octet_of h1 l1 <? 0x80
            then option_map (app (utf16 (code_point (octet_of h1 l1) 0 0 0))) (decode s2)
            else
              match s2 with
              | _ :: h2 :: l2 :: s3 =>
                  if octet_of h1 l1 <? 0xE0
                  then option_map
                         (app (utf16 (code_point (octet_of h1 l1) (octet_of h2 l2) 0 0)))
                         (decode s3)
                  else
                    match s3 with
                    | _ :: h3 :: l3 :: s4 =>
                        if octet_of h1 l1 <? 0xF0
                        then option_map
                               (app (utf16 (code_point (octet_of h1 l1) (octet_of h2 l2)
                                              (octet_of h3 l3) 0)))
                               (decode s4)
                        else
                          match s4 with
                          | _ :: h4 :: l4 :: s5 =>
                              option_map
                                (app (utf16 (code_point (octet_of h1 l1) (octet_of h2 l2)
                                               (octet_of h3 l3) (octet_of h4 l4))))
                                (decode s5)
                          | _ => None
                          end
                    | _ => None
                    end
              | _ => None
              end
        | _ => None
        end
  end.

End Decoding.

(** * Properties *)

Arguments lit : simpl never.
Arguments astral : simpl never.
Arguments Gateway.upstream : simpl never.
Arguments API_BASE_URL : simpl never.

(** One step of a run on the next construct of the handler. *)
Ltac steps :=
  cbn [read update perform lift bind try_catch finally await_fetch await_json
       console_log Alert_alert exec observed final trace completion
       ToBoolean or_else].

(** ** The built-ins *)

Section Builtins.

Ltac tests :=
  repeat match goal with
  | H : _ && _ = true |- _ => apply andb_true_iff in H; destruct H
  | H : _ || _ = true |- _ => apply orb_true_iff in H; destruct H
  | H : (_ <=? _) = true |- _ => apply N.leb_le in H
  | H : (_ =? _) = true |- _ => apply N.eqb_eq in H
  end.

Ltac refute f :=
  let E := fresh "E" in
  destruct f eqn:E; [exfalso | reflexivity];
  unfold always_unescaped, is_ascii_word, is_uri_mark,
    is_leading_surrogate, is_trailing_surrogate, is_white_space in *;
  tests; lia.

Lemma white_space_escaped (c : codeunit) :
  is_white_space c = true -> always_unescaped c = false.
Proof. intros H. refute (always_unescaped c). Qed.

Lemma white_space_not_leading (c : codeunit) :
  is_white_space c = true -> is_leading_surrogate c = false.
Proof. intros H. refute (is_leading_surrogate c). Qed.

Lemma white_space_not_trailing (c : codeunit) :
  is_white_space c = true -> is_trailing_surrogate c = false.
Proof. intros H. refute (is_trailing_surrogate c). Qed.

Lemma unescaped_not_leading (c : codeunit) :
  always_unescaped c = true -> is_leading_surrogate c = false.
Proof. intros H. refute (is_leading_surrogate c). Qed.

Lemma unescaped_not_trailing (c : codeunit) :
  always_unescaped c = true -> is_trailing_surrogate c = false.
Proof. intros H. refute (is_trailing_surrogate c). Qed.

(** A string of white space is escaped code unit by code unit. *)
Lemma encode_white_space (s : jsstring) :
  forallb is_white_space s = true ->
  encode s = Some (List.concat (map escape s)).
Proof.
  induction s as [|c s IH]; intros H; [reflexivity|].
  cbn [forallb] in H. apply andb_true_iff in H. destruct H as [Hc Hs].
  cbn [encode map List.concat].
  rewrite (white_space_escaped _ Hc), (white_space_not_trailing _ Hc),
    (white_space_not_leading _ Hc), (IH Hs).
  reflexivity.
Qed.

(** [encodeURIComponent] throws on the strings with an unpaired
    surrogate and on no other. *)
Lemma encode_defined_iff (s : jsstring) :
  isWellFormed s = true <-> exists r, encode s = Some r.
Proof.
  assert (both : forall n (s : jsstring), (List.length s <= n)%nat ->
            (isWellFormed s = true <-> exists r, encode s = Some r)).
  { clear s. induction n as [|n IH]; intros s Hn.
    - destruct s; [|cbn in Hn; lia]. cbn. split; eauto.
    - destruct s as [|c s]; [cbn; split; eauto|].
      cbn [List.length] in Hn. cbn [isWellFormed encode].
      destruct (always_unescaped c) eqn:Eu.
      + rewrite (unescaped_not_trailing _ Eu), (unescaped_not_leading _ Eu).
        rewrite (IH s) by lia. split; intros [r Hr].
        * rewrite Hr. cbn. eauto.
        * destruct (encode s); [eauto|discriminate].
      + destruct (is_trailing_surrogate c).
        { split; [discriminate|intros [r Hr]; discriminate]. }
        destruct (is_leading_surrogate c).
        * destruct s as [|d s]; [split; [discriminate|intros [r Hr]; discriminate]|].
          cbn [List.length] in Hn.
          destruct (is_trailing_surrogate d); cbn [andb];
            [|split; [discriminate|intros [r Hr]; discriminate]].
          rewrite (IH s) by lia. split; intros [r Hr].
          -- rewrite Hr. cbn. eauto.
          -- destruct (encode s); [eauto|discriminate].
        * rewrite (IH s) by lia. split; intros [r Hr].
          -- rewrite Hr. cbn. eauto.
          -- destruct (encode s); [eauto|discriminate]. }
  apply (both (List.length s)). lia.
Qed.

(** The result of [encodeURIComponent] is made of unescaped characters
    and [%XX] escapes only. *)
Lemma hex_digit_word (d : N) : d < 16 -> is_ascii_word (hex_digit d) = true.
Proof.
  intros H. unfold hex_digit, is_ascii_word.
  destruct (N.ltb_spec d 10).
  - replace ((48 <=? 48 + d) && (48 + d <=? 57)) with true;
      [now rewrite !orb_true_r|].
    symmetry. apply andb_true_iff. split; apply N.leb_le; lia.
  - replace ((65 <=? 65 + (d - 10)) && (65 + (d - 10) <=? 90)) with true;
      [reflexivity|].
    symmetry. apply andb_true_iff. split; apply N.leb_le; lia.
Qed.

Ltac quotient a b q :=
  assert (a / b < q) by (apply N.Div0.div_lt_upper_bound; lia).
Ltac remainder a b :=
  assert (a mod b < b) by (apply N.mod_upper_bound; discriminate).

Lemma utf8_octets (cp : N) :
  cp < 0x110000 -> Forall (fun o => o < 256) (utf8 cp).
Proof.
  intros H. unfold utf8.
  destruct (N.ltb_spec cp 0x80); [repeat constructor; lia|].
  remainder cp 0x40. remainder (cp / 0x40) 0x40. remainder (cp / 0x1000) 0x40.
  destruct (N.ltb_spec cp 0x800);
    [quotient cp 0x40 0x20; repeat constructor; lia|].
  destruct (N.ltb_spec cp 0x10000);
    [quotient cp 0x1000 0x10; repeat constructor; lia|].
  quotient cp 0x40000 0x5. repeat constructor; lia.
Qed.

Lemma percent_safe (o : N) : o < 256 -> forallb url_safe (percent o) = true.
Proof.
  intros H. unfold percent. cbn [forallb].
  quotient o 16 16. remainder o 16.
  unfold url_safe at 2 3. unfold always_unescaped.
  rewrite !hex_digit_word by assumption. reflexivity.
Qed.

Lemma escape_safe (cp : N) :
  cp < 0x110000 -> forallb url_safe (escape cp) = true.
Proof.
  intros H. unfold escape.
  induction (utf8_octets cp H) as [|o os Ho _ IH]; [reflexivity|].
  cbn [map List.concat]. rewrite forallb_app, IH, (percent_safe o Ho). reflexivity.
Qed.

Lemma surrogate_pair_bound (c d : codeunit) :
  is_leading_surrogate c = true -> is_trailing_surrogate d = true ->
  surrogate_pair c d < 0x110000.
Proof.
  unfold is_leading_surrogate, is_trailing_surrogate, surrogate_pair.
  intros Hc Hd. tests. lia.
Qed.

Lemma encode_url_safe (s r : jsstring) :
  Forall (fun c => c < 0x10000) s ->
  encode s = Some r ->
  forallb url_safe r = true.
Proof.
  assert (both : forall n (s r : jsstring), (List.length s <= n)%nat ->
            Forall (fun c => c < 0x10000) s ->
            encode s = Some r -> forallb url_safe r = true).
  { clear s r. induction n as [|n IH]; intros s r Hn Hs He.
    - destruct s; [|cbn in Hn; lia]. injection He as <-. reflexivity.
    - destruct s as [|c s]; [injection He as <-; reflexivity|].
      cbn [List.length] in Hn. inversion Hs as [|? ? Hc Hs']; subst.
      cbn [encode] in He.
      destruct (always_unescaped c) eqn:Eu.
      + destruct (encode s) as [r'|] eqn:Er; [|discriminate].
        injection He as <-. cbn [forallb]. unfold url_safe at 1.
        rewrite Eu. apply (IH s r'); [lia|assumption|assumption].
      + destruct (is_trailing_surrogate c); [discriminate|].
        destruct (is_leading_surrogate c) eqn:El.
        * destruct s as [|d s]; [discriminate|].
          cbn [List.length] in Hn. inversion Hs' as [|? ? Hd Hs'']; subst.
          destruct (is_trailing_surrogate d) eqn:Et; [|discriminate].
          destruct (encode s) as [r'|] eqn:Er; [|discriminate].
          injection He as <-. rewrite forallb_app.
          rewrite (escape_safe _ (surrogate_pair_bound _ _ El Et)).
          apply (IH s r'); [lia|assumption|assumption].
        * destruct (encode s) as [r'|] eqn:Er; [|discriminate].
          injection He as <-. rewrite forallb_app.
          rewrite escape_safe by lia.
          apply (IH s r'); [lia|assumption|assumption]. }
  apply (both (List.length s)). lia.
Qed.

(** [trim] leaves the empty string exactly of the strings of white
    space. *)
Lemma trim_start_nil_iff (s : jsstring) :
  trim_start s = [] <-> forallb is_white_space s = true.
Proof.
  induction s as [|c s IH]; cbn [trim_start forallb]; [tauto|].
  destruct (is_white_space c); cbn [andb]; [exact IH|].
  split; discriminate.
Qed.

Lemma forallb_rev {A} (f : A -> bool) (l : list A) :
  forallb f (rev l) = forallb f l.
Proof.
  induction l as [|x l IH]; [reflexivity|].
  cbn [rev forallb]. rewrite forallb_app, IH. cbn [forallb].
  rewrite andb_true_r. apply andb_comm.
Qed.

Lemma trim_start_suffix (s : jsstring) :
  exists p, s = p ++ trim_start s /\ forallb is_white_space p = true.
Proof.
  induction s as [|c s (p & Hp & Hw)]; [exists []; auto|].
  cbn [trim_start]. destruct (is_white_space c) eqn:Ec.
  - exists (c :: p). cbn [forallb app]. rewrite Ec, Hw.
    split; [f_equal; exact Hp|reflexivity].
  - exists []. auto.
Qed.

Lemma trim_empty_iff (s : jsstring) :
  is_empty (trim s) = true <-> forallb is_white_space s = true.
Proof.
  unfold trim, trim_end.
  destruct (trim_start_suffix s) as (p & Hp & Hw).
  split.
  - intros H.
    assert (rev (trim_start (rev (trim_start s))) = []) as E
      by (destruct (rev _); [reflexivity|discriminate]).
    apply (f_equal (@rev _)) in E. rewrite rev_involutive in E. cbn in E.
    apply trim_start_nil_iff in E. rewrite forallb_rev in E.
    rewrite Hp, forallb_app, Hw, E. reflexivity.
  - intros H. rewrite Hp, forallb_app in H.
    apply andb_true_iff in H. destruct H as [_ H].
    rewrite <- forallb_rev in H. apply trim_start_nil_iff in H.
    rewrite H. reflexivity.
Qed.

Example encode_space : encode (lit " ") = Some (lit "%20").
Proof. reflexivity. Qed.

Example encode_title :
  encode (lit "wednesday.s01e03") = Some (lit "wednesday.s01e03").
Proof. reflexivity. Qed.

(* U+00E9 then U+1F3AF as a surrogate pair *)
Example encode_non_ascii :
  encode (0xE9 :: astral 0x1F3AF) = Some (lit "%C3%A9%F0%9F%8E%AF").
Proof. vm_compute. reflexivity. Qed.

Example encode_lone_surrogate : encode [0xD83C] = None.
Proof. reflexivity. Qed.

Example trim_example :
  trim (lit "  avengers.endgame " ++ [0x0A]) = lit "avengers.endgame".
Proof. reflexivity. Qed.

End Builtins.

(** ** JSON values *)

Section Values.



(** What is written of an infinite number is [null]. *)
Example serialized_infinity :
  serialized (VArray [VNumber (S754_infinity false); VNumber (S754_zero true)])
  = VArray [VNull; VNumber zero].
Proof. reflexivity. Qed.

End Values.

(** ** Runs *)

Section Runs.

Context {S E A : Type}.
Variable fetch : jsstring -> result Response.

(** [finally] with a state update as its block: the update is applied
    to the state in which the body ends, however it ends, and the body's
    completion stands. *)
Lemma exec_finally_update (g : S -> S) (p : prog S E A) :
  forall (others : list (S -> S)) (st : S),
    exec fetch others (finally p (update g)) st =
    mkOutcome (g (final (exec fetch others p st)))
      (trace (exec fetch others p st))
      (completion (exec fetch others p st)).
Proof.
  induction p as [a|e|k IH|f k IH|e k IH|url k IH|r k IH];
    intros others st; cbn [finally exec update bind]; auto.
  - rewrite IH. reflexivity.
  - rewrite IH. reflexivity.
Qed.

(** A [catch] block that neither awaits nor throws turns every throw of
    the body into a normal completion. *)
Lemma exec_try_catch_normal (p : prog S E A) (h : exn -> prog S E A) :
  (forall e others st, exists a, completion (exec fetch others (h e) st) = Ok a) ->
  forall others st,
    exists a, completion (exec fetch others (try_catch p h) st) = Ok a.
Proof.
  intros Hh.
  induction p as [a|e|k IH|f k IH|e k IH|url k IH|r k IH];
    intros others st; cbn [try_catch exec observed completion]; eauto.
Qed.

End Runs.

(** ** The gateway *)

Module GatewayFacts.

Import Gateway.

(** Induction on a query value that reaches the elements of an array. *)
Lemma query_value_elements_ind (P : query_value -> Prop) :
  P QUndefined ->
  (forall s, P (QString s)) ->
  (forall l, Forall P l -> P (QArray l)) ->
  (forall ps, P (QObject ps)) ->
  forall q, P q.
Proof.
  intros Hu Hs Ha Ho.
  fix IH 1. intros [ |s|l|ps].
  - exact Hu.
  - apply Hs.
  - apply Ha. induction l as [|x l IHl]; constructor; [apply IH|exact IHl].
  - apply Ho.
Qed.

Lemma join_raises (parts : list (result jsstring)) (e : exn) :
  join parts = Raise e -> In (Raise e) parts.
Proof.
  induction parts as [|[s|e'] rest IH]; cbn [join]; intros H.
  - discriminate.
  - destruct rest as [|p rest']; [discriminate|].
    destruct (join (p :: rest')); [discriminate|].
    injection H as <-. right. apply IH. reflexivity.
  - injection H as <-. left. reflexivity.
Qed.

(** The only throw of [ToString] on a query value is the TypeError of
    an object that hides [toString]. *)
Lemma ToString_raises (q : query_value) (e : exn) :
  ToString q = Raise e -> e = cannot_convert.
Proof.
  revert e. induction q as [ |s|l IHl|ps] using query_value_elements_ind;
    intros e H; cbn [ToString] in H; try discriminate.
  - apply join_raises, in_map_iff in H. destruct H as [x [Hx Hin]].
    rewrite Forall_forall in IHl.
    destruct x; try discriminate; apply (IHl _ Hin); exact Hx.
  - destruct (has_own ps (lit "toString")); [|discriminate].
    injection H as <-. reflexivity.
Qed.

(** The route, case by case. *)
Lemma serve_cases (fetch : jsstring -> result Response) (title : query_value) :
  serve fetch title =
  if truthy title then
    match ToString title with
    | Raise e => replied (failure (message e))
    | Ok s =>
        match encode s with
        | None => replied (failure (uri_malformed v8))
        | Some encoded =>
            match fetch (upstream ++ encoded) with
            | Raise e => relayed (upstream ++ encoded) (failure (message e))
            | Ok r =>
                match json r with
                | Raise e => relayed (upstream ++ encoded) (failure (message e))
                | Ok data => relayed (upstream ++ encoded) (serialized data)
                end
            end
        end
    end
  else replied title_required.
Proof.
  unfold serve, run, proxy_get_stream.
  destruct (truthy title); cbn [negb]; [|reflexivity].
  destruct (ToString title) as [s|e]; cbn [lift bind try_catch]; [|reflexivity].
  unfold encodeURIComponent.
  destruct (encode s) as [encoded|]; cbn [lift bind try_catch]; [|reflexivity].
  cbn [await_fetch bind try_catch exec hd tl].
  destruct (fetch (upstream ++ encoded)) as [r|e]; cbn; [|reflexivity].
  destruct (json r) as [data|e]; reflexivity.
Qed.

(** A falsy title is absent or the empty string. *)
Lemma truthy_false_iff (title : query_value) :
  truthy title = false <-> title = QUndefined \/ title = QString [].
Proof.
  split.
  - destruct title as [ |[|c s]|l|ps]; cbn; intros H;
      try discriminate; auto.
  - intros [-> | ->]; reflexivity.
Qed.

(** The route and the player call the same upstream endpoint. *)
Lemma upstream_endpoint :
  upstream = API_BASE_URL ++ lit "/api/get-stream?title=".
Proof. reflexivity. Qed.

(** X1.  The route answers every request: it completes normally, whatever
    the network does, with exactly one reply of status 200. *)
Lemma serve_replies (fetch : jsstring -> result Response) (title : query_value) :
  exists body,
    serve fetch title = replied body
    \/ exists url, serve fetch title = relayed url body.
Proof.
  rewrite serve_cases.
  destruct (truthy title); [|eexists; left; reflexivity].
  destruct (ToString title) as [s|e]; [|eexists; left; reflexivity].
  destruct (encode s) as [encoded|]; [|eexists; left; reflexivity].
  destruct (fetch (upstream ++ encoded)) as [r|e];
    [destruct (json r) as [data|e]|]; eexists; right; eexists; reflexivity.
Qed.

(** An outbound call is to the URL built from the title. *)
Lemma serve_outbound (fetch : jsstring -> result Response) (title : query_value)
    (url : jsstring) :
  In (FetchGET url) (trace (serve fetch title)) ->
  exists s encoded,
    truthy title = true /\ ToString title = Ok s /\ encode s = Some encoded
    /\ url = upstream ++ encoded.
Proof.
  rewrite serve_cases.
  destruct (truthy title) eqn:Ht; [|intros [H|[]]; discriminate].
  destruct (ToString title) as [s|e] eqn:Es; [|intros [H|[]]; discriminate].
  destruct (encode s) as [encoded|] eqn:Ee; [|intros [H|[]]; discriminate].
  intros H. exists s, encoded.
  assert (url = upstream ++ encoded) as Hurl.
  { destruct (fetch (upstream ++ encoded)) as [r|e];
      [destruct (json r) as [data|e]|];
      (destruct H as [H|[H|[]]]; [injection H as <-; reflexivity|discriminate]). }
  auto.
Qed.

(** C3.  When the outbound call of a request throws, whether [fetch]
    rejects (network failure, timeout) or [response.json()] rejects
    (the body is not JSON), the route completes normally and its one
    reply is [{ success: false, error: <the exception's message> }]
    with status 200: nothing thrown reaches the caller. *)
Theorem upstream_throw_enveloped (fetch : jsstring -> result Response)
    (title : query_value) (url : jsstring) (e : exn) :
  In (FetchGET url) (trace (serve fetch title)) ->
  fetch url = Raise e \/ (exists r, fetch url = Ok r /\ json r = Raise e) ->
  serve fetch title =
    mkOutcome tt
      [FetchGET url;
       Effect (Send 200 (VObject [(lit "success", VBool false);
                                  (lit "error", VString (message e))]))]
      (Ok tt).
Proof.
  intros Hcall Hthrow.
  destruct (serve_outbound _ _ _ Hcall) as (s & encoded & Ht & Hs & He & ->).
  rewrite serve_cases, Ht, Hs, He.
  destruct Hthrow as [Hf | (r & Hf & Hj)]; rewrite Hf; [|rewrite Hj]; reflexivity.
Qed.

(** C4.  A request whose [title] is missing or empty is answered at
    once with [{ success: false, error: "Title parameter required" }],
    and the run makes no outbound call. *)
Theorem title_required_no_outbound_call (fetch : jsstring -> result Response)
    (title : query_value) :
  title = QUndefined \/ title = QString [] ->
  serve fetch title =
    mkOutcome tt
      [Effect (Send 200 (VObject [(lit "success", VBool false);
                                  (lit "error",
                                   VString (lit "Title parameter required"))]))]
      (Ok tt)
  /\ forall url, ~ In (FetchGET url) (trace (serve fetch title)).
Proof.
  intros H. apply truthy_false_iff in H.
  assert (serve fetch title = replied title_required) as E
    by (rewrite serve_cases, H; reflexivity).
  split; [rewrite E; reflexivity|].
  intros url. rewrite E. intros [Hin|[]]. discriminate.
Qed.



(** C9.  A title that is a non-empty string of white space does not
    take the validation branch: the first thing the route does is the
    outbound GET, with every code unit of the title percent-escaped.
    The validation reply with no outbound call is the outcome exactly
    when the title is absent or the empty string. *)
Theorem white_space_title_forwarded (fetch : jsstring -> result Response)
    (s : jsstring) :
  s <> [] ->
  forallb is_white_space s = true ->
  (exists body,
     serve fetch (QString s) =
     relayed (upstream ++ List.concat (map escape s)) body)
  /\ serve fetch (QString s) <> replied title_required
  /\ forall title,
       serve fetch title = replied title_required
       <-> title = QUndefined \/ title = QString [].
Proof.
  intros Hs Hw.
  assert (validation : forall title,
            serve fetch title = replied title_required
            <-> title = QUndefined \/ title = QString []).
  { intros title. split.
    - intros H. apply truthy_false_iff.
      destruct (truthy title) eqn:Ht; [exfalso|reflexivity].
      rewrite serve_cases, Ht in H.
      destruct (ToString title) as [s'|e] eqn:Es.
      + destruct (encode s') as [encoded|].
        * destruct (fetch (upstream ++ encoded)) as [r|e];
            [destruct (json r) as [data|e]|]; discriminate.
        * vm_compute in H. discriminate.
      + apply ToString_raises in Es. subst e. vm_compute in H. discriminate.
    - intros H. apply truthy_false_iff in H.
      rewrite serve_cases, H. reflexivity. }
  split; [|split; [|exact validation]].
  - rewrite serve_cases. cbn [truthy ToString].
    destruct s; [contradiction|]. cbn [is_empty negb].
    rewrite (encode_white_space _ Hw).
    destruct (fetch _) as [r|e]; [destruct (json r) as [data|e]|];
      eexists; reflexivity.
  - intros H. apply validation in H. destruct H as [H|H]; [discriminate|].
    injection H as ->. contradiction.
Qed.

(** The scenario of the gateway whose outbound call throws
    [Error("timeout")]. *)
Lemma upstream_throw_enveloped_witness :
  serve (rejecting (mkExn (lit "Error") (lit "timeout"))) (QString (lit "x"))
  = mkOutcome tt
      [FetchGET (upstream ++ lit "x");
       Effect (Send 200 (VObject [(lit "success", VBool false);
                                  (lit "error", VString (lit "timeout"))]))]
      (Ok tt).
Proof.
  apply (upstream_throw_enveloped
           (rejecting (mkExn (lit "Error") (lit "timeout")))
           (QString (lit "x")) (upstream ++ lit "x")
           (mkExn (lit "Error") (lit "timeout"))).
  - vm_compute. left. reflexivity.
  - left. reflexivity.
Defined.

(** The scenario of the gateway with no [title] query parameter. *)
Lemma title_required_no_outbound_call_witness :
  serve (answering descriptor) QUndefined =
    mkOutcome tt
      [Effect (Send 200 (VObject [(lit "success", VBool false);
                                  (lit "error",
                                   VString (lit "Title parameter required"))]))]
      (Ok tt)
  /\ forall url,
       ~ In (FetchGET url) (trace (serve (answering descriptor) QUndefined)).
Proof.
  apply (title_required_no_outbound_call (answering descriptor) QUndefined).
  left. reflexivity.
Defined.


(** A title of one space and one tab goes upstream as [%20%09]. *)
Lemma white_space_title_forwarded_witness :
  (exists body,
     serve (answering descriptor) (QString [0x20; 0x09]) =
     relayed (upstream ++ lit "%20%09") body)
  /\ serve (answering descriptor) (QString [0x20; 0x09]) <> replied title_required
  /\ forall title,
       serve (answering descriptor) title = replied title_required
       <-> title = QUndefined \/ title = QString [].
Proof.
  apply (white_space_title_forwarded (answering descriptor) [0x20; 0x09]).
  - discriminate.
  - reflexivity.
Defined.

End GatewayFacts.

(** ** The player with media controls *)

Module MediaPlayerFacts.

Import MediaPlayer.

Section Handlers.

(** The handlers below do not await: the network and the other
    handlers have no part in their runs. *)
Variable fetch : jsstring -> result Response.
Variable others : list (State -> State).

(** C2.  From every state, [clearAll()] leaves the title empty, no
    stream descriptor and no error stored, the player [PAUSED] and the
    current time at 0. *)
Theorem clearAll_resets (st : State) :
  let o := exec fetch others clearAll st in
  title (final o) = []
  /\ streamData (final o) = VNull
  /\ error (final o) = VNull
  /\ playerState (final o) = PAUSED
  /\ currentTime (final o) = zero.
Proof. cbn. repeat split. Qed.

(** The five cells are back at the values they start with. *)
Lemma clearAll_initial_values (st : State) :
  let o := exec fetch others clearAll st in
  title (final o) = title initial
  /\ streamData (final o) = streamData initial
  /\ error (final o) = error initial
  /\ playerState (final o) = playerState initial
  /\ currentTime (final o) = currentTime initial.
Proof. cbn. repeat split. Qed.

(** C10.  [clearAll()] writes the five cells of C2 and no other: the
    duration, the fullscreen flag and the widget's [isLoading] (and the
    fetch's [loading]) keep their values, and nothing is shown or
    logged. *)
Theorem clearAll_frame (st : State) :
  let o := exec fetch others clearAll st in
  duration (final o) = duration st
  /\ isFullscreen (final o) = isFullscreen st
  /\ isLoading (final o) = isLoading st
  /\ loading (final o) = loading st
  /\ final o = mkState VNull (loading st) VNull [] (isFullscreen st)
                 PAUSED zero (duration st) (isLoading st)
  /\ trace o = [].
Proof. cbn. repeat split. Qed.

(** C7.  A progress callback that arrives while the widget is loading,
    or once playback has ended, leaves the current time as it was; any
    other one sets it to the time the callback carries. *)
Theorem onProgress_guarded (st : State) (data : OnProgressData) :
  let o := exec fetch others (onProgress data) st in
  (isLoading st = true \/ playerState st = ENDED ->
   currentTime (final o) = currentTime st)
  /\ (isLoading st = false /\ playerState st <> ENDED ->
      currentTime (final o) = progress_currentTime data).
Proof.
  cbn. split.
  - intros [H | H]; rewrite H; [reflexivity|].
    destruct (isLoading st); reflexivity.
  - intros [Hl He]. rewrite Hl.
    destruct (playerState st); [reflexivity|reflexivity|contradiction].
Qed.

(** A progress callback writes no other cell. *)
Lemma onProgress_frame (st : State) (data : OnProgressData) :
  let o := exec fetch others (onProgress data) st in
  (final o = st \/ final o = setCurrentTime (progress_currentTime data) st)
  /\ trace o = [].
Proof.
  cbn. destruct (isLoading st), (playerState st); cbn; auto.
Qed.

(** C8.  On a playback error of the widget, in every state, the user is
    shown the alert, [isLoading] is cleared, and the stored descriptor,
    the stored error text and [playerState] are as before. *)
Theorem onError_alerts_and_keeps_state (st : State) (err : value) :
  let o := exec fetch others (onError err) st in
  In (Effect (AlertAlert (lit "Playback Error")
        (VString (lit "Failed to play video stream. Check if headers are working."))))
     (trace o)
  /\ isLoading (final o) = false
  /\ streamData (final o) = streamData st
  /\ error (final o) = error st
  /\ playerState (final o) = playerState st
  /\ final o = setIsLoading false st.
Proof. cbn. repeat split. right. left. reflexivity. Qed.

(** [replay()] leaves the player [PLAYING] and sends the widget one
    seek to time zero. *)
Lemma onReplay_plays_from_zero (st : State) :
  exec fetch others onReplay st =
  mkOutcome (setPlayerState PLAYING st) [Effect (VideoSeek zero)] (Ok tt).
Proof. reflexivity. Qed.

End Handlers.

(** One progress callback on the initial state. *)
Lemma onProgress_guarded_witness :
  currentTime
    (final (exec (answering descriptor) []
              (onProgress {| progress_currentTime := S754_finite false 3 Z0 |})
              initial))
  = S754_finite false 3 Z0.
Proof.
  apply (proj2 (onProgress_guarded (answering descriptor) []
                  initial {| progress_currentTime := S754_finite false 3 Z0 |})).
  split; [reflexivity | discriminate].
Defined.

End MediaPlayerFacts.

Module FetchStreamFacts.

Import MediaPlayer.

(** A body with a field is an object, and reading it does not throw. *)
Lemma field_get (eng : Engine) (data : value) (p : jsstring) (b : bool) :
  field data p = VBool b ->
  forall q, get eng data q = Ok (field data q).
Proof.
  destruct data; cbn; intros H q; try discriminate. reflexivity.
Qed.

Lemma well_formed_headers (data : value) :
  well_formed data = true ->
  exists hs, field data (lit "headers") = VObject hs.
Proof.
  destruct data as [ | | | | | |ps]; cbn [well_formed]; try discriminate.
  cbn [field].
  destruct (own_property ps (lit "success")); try discriminate.
  destruct (own_property ps (lit "headers")); try discriminate.
  eauto.
Qed.

(** C1.  A call that passes the validation of the title, sends its
    request and is answered with a well-formed StreamDescriptor whose
    [success] is true ends, whatever other handlers ran while it was
    suspended, with [loading] false, [playerState] [PLAYING] and the
    response stored as the descriptor: the [source] the widget then
    receives carries the response's [m3u8_url], [Referer] and
    [User-Agent]. *)
Theorem fetchStream_success (eng : Engine)
    (fetch : jsstring -> result Response) (others : list (State -> State))
    (title : jsstring) (st : State) (url : jsstring) (r : Response)
    (data : value) :
  is_empty (trim title) = false ->
  stream_url eng title = Ok url ->
  fetch url = Ok r ->
  json r = Ok data ->
  well_formed data = true ->
  field data (lit "success") = VBool true ->
  let o := exec fetch others (fetchStream eng title) st in
  completion o = Ok tt
  /\ loading (final o) = false
  /\ playerState (final o) = PLAYING
  /\ streamData (final o) = data
  /\ source eng (final o) =
       Ok (mkSource (field data (lit "m3u8_url"))
             (field (field data (lit "headers")) (lit "Referer"))
             (field (field data (lit "headers")) (lit "User-Agent"))).
Proof.
  intros Ht Hu Hf Hj Hw Hs. cbv zeta.
  pose proof (field_get eng _ _ _ Hs) as Hget.
  destruct (well_formed_headers _ Hw) as [hs Hh].
  unfold fetchStream. steps. rewrite Ht. steps. rewrite Hu. steps.
  rewrite Hf. steps. rewrite Hj. steps. rewrite (Hget (lit "success")), Hs. steps.
  rewrite (Hget (lit "headers")). steps. rewrite (Hget (lit "m3u8_url")). steps.
  repeat split.
  unfold source. cbn [streamData setLoading setPlayerState setStreamData].
  rewrite (Hget (lit "m3u8_url")), (Hget (lit "headers")), Hh. reflexivity.
Qed.

(** C5, as the code has it.  A call that passes the validation, sends
    its request and is answered with a body whose [success] is false
    ends with [loading] false and the body's [error] field stored as
    the error, whatever other handlers ran while it was suspended; no
    descriptor is stored provided none of those handlers stored one. *)
Theorem fetchStream_failure (eng : Engine)
    (fetch : jsstring -> result Response) (others : list (State -> State))
    (title : jsstring) (st : State) (url : jsstring) (r : Response)
    (data : value) :
  is_empty (trim title) = false ->
  stream_url eng title = Ok url ->
  fetch url = Ok r ->
  json r = Ok data ->
  field data (lit "success") = VBool false ->
  let o := exec fetch others (fetchStream eng title) st in
  completion o = Ok tt
  /\ loading (final o) = false
  /\ error (final o) = field data (lit "error")
  /\ (Forall stores_no_descriptor others -> streamData (final o) = VNull).
Proof.
  intros Ht Hu Hf Hj Hs. cbv zeta.
  pose proof (field_get eng _ _ _ Hs) as Hget.
  unfold fetchStream. steps. rewrite Ht. steps. rewrite Hu. steps.
  rewrite Hf. steps. rewrite Hj. steps. rewrite (Hget (lit "success")), Hs. steps.
  rewrite (Hget (lit "error")). steps.
  repeat split.
  intros Hk. cbn [streamData setLoading setError].
  destruct others as [|f [|g others']]; cbn [hd tl].
  - reflexivity.
  - inversion Hk as [|? ? Kf _]; subst. apply Kf. reflexivity.
  - inversion Hk as [|? ? Kf Hk']; subst. inversion Hk' as [|? ? Kg _]; subst.
    apply Kg, Kf. reflexivity.
Qed.

(** C5 as the claim states it fails: in the run of [Overlap] the first
    call passed the validation, sent its request and was answered with
    [success] false, and when it ends the descriptor of the second call
    is stored. *)
Lemma fetchStream_failure_descriptor_stored :
  let o := Overlap.first_call in
  (is_empty (trim (lit "slow")) = false
   /\ stream_url v8 (lit "slow") = Ok Overlap.slow_url
   /\ Overlap.network Overlap.slow_url = Ok (mkResponse (Ok not_found))
   /\ field not_found (lit "success") = VBool false)
  /\ streamData (final o) = descriptor
  /\ streamData (final o) <> VNull
  /\ error (final o) = VString (lit "Not found")
  /\ loading (final o) = false.
Proof.
  cbv zeta. repeat split; try (vm_compute; reflexivity).
  vm_compute. discriminate.
Qed.

(** The scenario of the title [wednesday.s01e03] answered with its
    descriptor. *)
Lemma fetchStream_success_witness :
  let o := exec (answering descriptor) []
             (fetchStream v8 (lit "wednesday.s01e03"))
             (setTitle (lit "wednesday.s01e03") initial) in
  completion o = Ok tt
  /\ loading (final o) = false
  /\ playerState (final o) = PLAYING
  /\ streamData (final o) = descriptor
  /\ source v8 (final o) =
       Ok (mkSource (VString (lit "https://x/y.m3u8"))
             (VString (lit "r")) (VString (lit "u"))).
Proof.
  apply (fetchStream_success v8 (answering descriptor) []
           (lit "wednesday.s01e03") (setTitle (lit "wednesday.s01e03") initial)
           (API_BASE_URL ++ lit "/api/get-stream?title=wednesday.s01e03")
           (mkResponse (Ok descriptor)) descriptor);
    vm_compute; reflexivity.
Defined.

Lemma fetchStream_failure_witness :
  let o := exec (answering not_found) []
             (fetchStream v8 (lit "slow")) (setTitle (lit "slow") initial) in
  loading (final o) = false
  /\ error (final o) = VString (lit "Not found")
  /\ streamData (final o) = VNull.
Proof.
  destruct (fetchStream_failure v8 (answering not_found) []
              (lit "slow") (setTitle (lit "slow") initial)
              (API_BASE_URL ++ lit "/api/get-stream?title=slow")
              (mkResponse (Ok not_found)) not_found)
    as (_ & Hl & He & Hd); try (vm_compute; reflexivity).
  split; [exact Hl | split; [exact He | apply Hd; constructor]].
Defined.

(** A title that trims to the empty string: the validation alert, no
    request, and the state as it was. *)
Lemma fetchStream_blank_title (eng : Engine)
    (fetch : jsstring -> result Response) (others : list (State -> State))
    (title : jsstring) (st : State) :
  is_empty (trim title) = true ->
  exec fetch others (fetchStream eng title) st =
  mkOutcome st
    [Effect (AlertAlert (lit "Error")
       (VString (lit "Please enter movie/series title")))]
    (Ok tt).
Proof.
  intros Ht. unfold fetchStream. steps. rewrite Ht. reflexivity.
Qed.

(** X7.  A call with a title of white space only (or the empty title)
    shows the validation alert, sends no request and leaves every cell
    as it was: the player trims the title it checks, the gateway does
    not. *)
Lemma fetchStream_white_space_title (eng : Engine)
    (fetch : jsstring -> result Response) (others : list (State -> State))
    (title : jsstring) (st : State) :
  forallb is_white_space title = true ->
  exec fetch others (fetchStream eng title) st =
  mkOutcome st
    [Effect (AlertAlert (lit "Error")
       (VString (lit "Please enter movie/series title")))]
    (Ok tt).
Proof.
  intros Hw. apply fetchStream_blank_title, trim_empty_iff, Hw.
Qed.

(** X8.  A call whose [fetch] or [response.json()] rejects ends with
    [loading] false and a non-empty error text. *)
Lemma fetchStream_exception (eng : Engine)
    (fetch : jsstring -> result Response) (others : list (State -> State))
    (title : jsstring) (st : State) (url : jsstring) (e : exn) :
  is_empty (trim title) = false ->
  stream_url eng title = Ok url ->
  fetch url = Raise e \/ (exists r, fetch url = Ok r /\ json r = Raise e) ->
  let o := exec fetch others (fetchStream eng title) st in
  completion o = Ok tt
  /\ loading (final o) = false
  /\ error (final o) = VString (lit "Network error: " ++ message e)
  /\ ToBoolean (error (final o)) = true.
Proof.
  intros Ht Hu Hthrow. cbv zeta.
  unfold fetchStream. steps. rewrite Ht. steps. rewrite Hu. steps.
  destruct Hthrow as [Hf | (r & Hf & Hj)]; rewrite Hf; steps;
    [|rewrite Hj; steps]; repeat split.
Qed.

(** X9.  Every call that passes the validation ends, whatever the network
    and the other handlers do, normally and with [loading] false. *)
Lemma fetchStream_clears_loading (eng : Engine)
    (fetch : jsstring -> result Response) (others : list (State -> State))
    (title : jsstring) (st : State) :
  is_empty (trim title) = false ->
  let o := exec fetch others (fetchStream eng title) st in
  loading (final o) = false /\ completion o = Ok tt.
Proof.
  intros Ht. cbv zeta. unfold fetchStream. rewrite Ht.
  cbn [bind update exec]. rewrite exec_finally_update.
  cbn [final completion loading setLoading]. split; [reflexivity|].
  match goal with
  | |- completion (exec _ _ (try_catch ?p ?h) ?s) = _ =>
      destruct (exec_try_catch_normal fetch p h) with (others := others) (st := s)
        as [[] Hc]; [|exact Hc]
  end.
  intros e others' st'. exists tt. reflexivity.
Qed.

End FetchStreamFacts.

(** ** The component [VideoPlayerApp] *)

Module VideoPlayerAppFacts.

Import VideoPlayerApp.

(** X21.  In the first component, which has neither [playerState] nor
    the widget's [isLoading], a call answered with a body whose
    [success] is true ends, whatever ran in the meantime, normally, with
    [loading] false and the body stored. *)
Lemma app_fetchStream_success (eng : Engine)
    (fetch : jsstring -> result Response) (others : list (State -> State))
    (title : jsstring) (st : State) (url : jsstring) (r : Response)
    (data : value) :
  is_empty (trim title) = false ->
  stream_url eng title = Ok url ->
  fetch url = Ok r ->
  json r = Ok data ->
  field data (lit "success") = VBool true ->
  let o := exec fetch others (fetchStream eng title) st in
  completion o = Ok tt
  /\ loading (final o) = false
  /\ streamData (final o) = data.
Proof.
  intros Ht Hu Hf Hj Hs. cbv zeta.
  assert (Hget : get eng data (lit "success") = Ok (VBool true)).
  { destruct data; try discriminate. cbn in *. now rewrite Hs. }
  unfold fetchStream. steps. rewrite Ht. steps. rewrite Hu. steps.
  rewrite Hf. steps. rewrite Hj. steps. rewrite Hget. steps.
  repeat split.
Qed.

(** X22.  On a body whose [success] is false the first component, run
    on its own, ends with [loading] false, no descriptor and the body's
    [error] field stored. *)
Lemma app_fetchStream_failure (eng : Engine)
    (fetch : jsstring -> result Response) (title : jsstring) (st : State)
    (url : jsstring) (r : Response) (data : value) :
  is_empty (trim title) = false ->
  stream_url eng title = Ok url ->
  fetch url = Ok r ->
  json r = Ok data ->
  field data (lit "success") = VBool false ->
  let o := run fetch (fetchStream eng title) st in
  completion o = Ok tt
  /\ loading (final o) = false
  /\ streamData (final o) = VNull
  /\ error (final o) = field data (lit "error").
Proof.
  intros Ht Hu Hf Hj Hs. cbv zeta.
  destruct data; try discriminate. cbn [field] in *.
  unfold run, fetchStream. steps. rewrite Ht. steps. rewrite Hu. steps.
  rewrite Hf. steps. rewrite Hj. steps. cbn [get]. steps. rewrite Hs. steps.
  repeat split.
Qed.

Lemma app_clearAll_resets (fetch : jsstring -> result Response)
    (others : list (State -> State)) (st : State) :
  exec fetch others clearAll st =
  mkOutcome (mkState VNull (loading st) VNull [] (isFullscreen st)) [] (Ok tt).
Proof. reflexivity. Qed.

Lemma app_onError_alerts (fetch : jsstring -> result Response)
    (others : list (State -> State)) (st : State) (err : value) :
  let o := exec fetch others (onError err) st in
  final o = st
  /\ In (Effect (AlertAlert (lit "Playback Error")
           (VString (lit "Failed to play video stream"))))
        (trace o).
Proof. cbn. split; [reflexivity | right; left; reflexivity]. Qed.

End VideoPlayerAppFacts.

(** ** The event loop *)

Section LoopFacts.

Context {S E : Type}.

(** A run is its first task, followed, when that task ends on an
    [await], by what the other handlers do and by the run of the rest. *)
Lemma exec_segment (fetch : jsstring -> result Response) (p : prog S E unit) :
  forall (others : list (S -> S)) (st : S),
    exec fetch others p st =
    match stopped (segment p st) with
    | Completed c => mkOutcome (after (segment p st)) (shown (segment p st)) c
    | Awaiting w =>
        let url := match w with OnFetch url _ => url | OnJson _ _ => [] end in
        let o := exec fetch (tl others) (resumed w (fetch url))
                   (hd (fun s => s) others (after (segment p st))) in
        mkOutcome (final o) (shown (segment p st) ++ trace o) (completion o)
    end.
Proof.
  induction p as [a|e|k IH|f k IH|e k IH|url k IH|r k IH];
    intros others st; cbn [exec segment stopped after shown resumed].
  - reflexivity.
  - reflexivity.
  - apply IH.
  - apply IH.
  - rewrite IH. destruct (stopped (segment k st)) as [c|w]; reflexivity.
  - reflexivity.
  - destruct (exec fetch (tl others) (k (json r)) _); reflexivity.
Qed.

(** A handler that keeps [I] leaves its first task in [I], and the
    call it may suspend keeps [I] when resumed. *)
Lemma keeps_segment (I : S -> Prop) (p : prog S E unit) :
  forall st, keeps I p st ->
    I (after (segment p st))
    /\ match stopped (segment p st) with
       | Completed _ => True
       | Awaiting w => resumes_keeping I w
       end.
Proof.
  induction p as [a|e|k IH|f k IH|e k IH|url k IH|r k IH];
    intros st H; cbn [keeps segment after stopped] in *; auto;
    destruct H as [HI Hk]; (split; [exact HI|]);
    intros fetched st' HI'; apply Hk, HI'.
Qed.

(** It then ends in [I] whatever the network answers, provided the
    handlers that run while it is suspended keep [I] too. *)
Lemma keeps_exec (I : S -> Prop) (fetch : jsstring -> result Response)
    (p : prog S E unit) :
  forall (others : list (S -> S)) (st : S),
    Forall (fun f => forall s, I s -> I (f s)) others ->
    keeps I p st ->
    I (final (exec fetch others p st)).
Proof.
  induction p as [a|e|k IH|f k IH|e k IH|url k IH|r k IH];
    intros others st Ho H; cbn [keeps exec final observed] in *; auto.
  - destruct H as [HI Hk]. apply IH.
    + destruct others; [constructor|inversion Ho; assumption].
    + apply Hk. destruct others as [|g others]; [exact HI|].
      inversion Ho; subst. cbn. auto.
  - destruct H as [HI Hk]. apply IH.
    + destruct others; [constructor|inversion Ho; assumption].
    + apply Hk. destruct others as [|g others]; [exact HI|].
      inversion Ho; subst. cbn. auto.
Qed.

End LoopFacts.

(** ** The screen as a whole *)

Module ScreenFacts.

Import MediaPlayer Screen.

(** A setter of a cell other than [loading] and [streamData] keeps the
    two in agreement. *)
Ltac consistent_frame :=
  match goal with
  | H : consistent ?st |- consistent _ =>
      destruct H as [Hl Hd]; split; cbn; assumption
  end.

Lemma fetchStream_keeps (eng : Engine) (title : jsstring) (st : State) :
  consistent st -> keeps consistent (fetchStream eng title) st.
Proof.
  intros HI. unfold fetchStream.
  destruct (is_empty (trim title)); [exact HI|].
  cbn [bind update keeps].
  destruct (stream_url eng title) as [url|e];
    cbn [lift bind try_catch finally update console_log perform Alert_alert
         await_fetch await_json keeps].
  - split; [split; cbn; auto|].
    intros [r|e] st1 H1;
      cbn [lift bind try_catch finally update console_log perform Alert_alert
           await_fetch await_json keeps].
    + split; [exact H1|].
      intros [data|e] st2 H2;
        cbn [lift bind try_catch finally update console_log perform Alert_alert
             await_fetch await_json keeps].
      * destruct (get eng data (lit "success")) as [success|e] eqn:Eg;
          cbn [lift bind try_catch finally update perform Alert_alert keeps].
        -- destruct (ToBoolean success) eqn:Es;
             cbn [lift bind try_catch finally update console_log perform
                  Alert_alert keeps].
           ++ assert (field data (lit "success") = success /\ exists ps, data = VObject ps)
                as [Ef [ps ->]].
              { destruct data; cbn in Eg; try discriminate;
                  injection Eg as <-; try discriminate Es. cbn. eauto. }
              cbn [get lift bind try_catch finally update console_log perform
                   Alert_alert keeps].
              split; cbn; [discriminate|]. right. cbn in Ef. rewrite Ef. exact Es.
           ++ destruct (get eng data (lit "error")) as [err|e];
                cbn [lift bind try_catch finally update perform Alert_alert keeps];
                destruct H2 as [Hl Hd]; split; cbn; auto; discriminate.
        -- destruct H2 as [Hl Hd]; split; cbn; auto; discriminate.
      * destruct H2 as [Hl Hd]; split; cbn; auto; discriminate.
    + destruct H1 as [Hl Hd]; split; cbn; auto; discriminate.
  - split; cbn; auto; discriminate.
Qed.

Lemma handler_keeps (eng : Engine) (ev : event) (st : State) :
  consistent st -> keeps consistent (handler eng ev) st.
Proof.
  intros HI. destruct ev; cbn [handler];
    try (apply fetchStream_keeps; exact HI);
    try (destruct HI as [Hl Hd]; split; cbn; auto; fail).
  unfold onProgress. cbn [read bind keeps].
  destruct (negb (isLoading st) && negb (PLAYER_STATES_eqb (playerState st) ENDED));
    cbn [update keeps]; [|exact HI].
  destruct HI as [Hl Hd]; split; cbn; auto.
Qed.

(** At every task boundary the cells are consistent and every
    suspended call keeps them so when it is resumed. *)
Lemma reachable_consistent (eng : Engine) (s : screen) :
  reachable eng s ->
  consistent (cells s) /\ Forall (resumes_keeping consistent) (calls s).
Proof.
  induction 1 as [|s s' _ [HI Hc] Hstep].
  - split; [|constructor]. split; cbn; [discriminate|auto].
  - destruct Hstep as [ev s|st before later w fetched]; cbn [cells calls] in *.
    + destruct (keeps_segment consistent _ _ (handler_keeps eng ev _ HI)) as [HI' Hw].
      split; [exact HI'|].
      destruct (stopped (segment (handler eng ev) (cells s))); cbn [suspend]; auto.
    + apply Forall_app in Hc. destruct Hc as [Hb Hwl].
      inversion Hwl as [|? ? Hw Hl]; subst.
      destruct (keeps_segment consistent _ _ (Hw fetched st HI)) as [HI' Hw'].
      split; [exact HI'|].
      assert (Forall (resumes_keeping consistent) (before ++ later)) as Hbl
        by (apply Forall_app; auto).
      destruct (stopped (segment (resumed w fetched) st)); cbn [suspend]; auto.
Qed.

End ScreenFacts.

(** ** More on the built-ins *)

Section MoreBuiltins.

(** The encoding of a concatenation, when the first part has one. *)
Lemma encode_app (s t es : jsstring) :
  encode s = Some es ->
  encode (s ++ t) = option_map (app es) (encode t).
Proof.
  assert (both : forall n (s es : jsstring), (List.length s <= n)%nat ->
            encode s = Some es ->
            encode (s ++ t) = option_map (app es) (encode t)).
  { clear s es. induction n as [|n IH]; intros s es Hn He.
    - destruct s; [|cbn in Hn; lia]. injection He as <-.
      cbn [app]. destruct (encode t); reflexivity.
    - destruct s as [|c s].
      { injection He as <-. cbn [app]. destruct (encode t); reflexivity. }
      cbn [List.length] in Hn. cbn [app encode] in *.
      destruct (always_unescaped c).
      + destruct (encode s) as [r|] eqn:Er; [|discriminate].
        injection He as <-. rewrite (IH s r) by (lia || assumption).
        destruct (encode t); reflexivity.
      + destruct (is_trailing_surrogate c); [discriminate|].
        destruct (is_leading_surrogate c).
        * destruct s as [|d s]; [discriminate|].
          cbn [List.length] in Hn. cbn [app].
          destruct (is_trailing_surrogate d); [|discriminate].
          destruct (encode s) as [r|] eqn:Er; [|discriminate].
          injection He as <-. rewrite (IH s r) by (lia || assumption).
          destruct (encode t); cbn [option_map]; [|reflexivity].
          rewrite app_assoc. reflexivity.
        * destruct (encode s) as [r|] eqn:Er; [|discriminate].
          injection He as <-. rewrite (IH s r) by (lia || assumption).
          destruct (encode t); cbn [option_map]; [|reflexivity].
          rewrite app_assoc. reflexivity. }
  apply (both (List.length s)). lia.
Qed.

(** A string of unescaped characters is its own encoding. *)
Lemma encode_unescaped (s : jsstring) :
  forallb always_unescaped s = true -> encode s = Some s.
Proof.
  induction s as [|c s IH]; intros H; [reflexivity|].
  cbn [forallb] in H. apply andb_true_iff in H. destruct H as [Hc Hs].
  cbn [encode]. rewrite Hc, (IH Hs). reflexivity.
Qed.

(** No character that delimits a part of a URL is left in an encoded
    component. *)
Lemma url_safe_no_delimiter (c : codeunit) :
  url_safe c = true -> ~ In c (lit " &=#?/+:;,@").
Proof.
  intros H Hin. vm_compute in Hin.
  repeat (destruct Hin as [<-|Hin]; [discriminate H|]). exact Hin.
Qed.

(** [trim] drops white space around any string. *)
Lemma trim_start_padded (p s : jsstring) :
  forallb is_white_space p = true -> trim_start (p ++ s) = trim_start s.
Proof.
  induction p as [|c p IH]; intros H; [reflexivity|].
  cbn [forallb] in H. apply andb_true_iff in H. destruct H as [Hc Hp].
  cbn [app trim_start]. rewrite Hc. apply IH, Hp.
Qed.

Lemma trim_start_app (s q : jsstring) :
  trim_start s <> [] -> trim_start (s ++ q) = trim_start s ++ q.
Proof.
  induction s as [|c s IH]; intros H; [contradiction|].
  cbn [app trim_start] in *. destruct (is_white_space c); [apply IH, H|reflexivity].
Qed.

Lemma trim_end_padded (s q : jsstring) :
  forallb is_white_space q = true -> trim_end (s ++ q) = trim_end s.
Proof.
  intros H. unfold trim_end. rewrite rev_app_distr, trim_start_padded; [reflexivity|].
  rewrite forallb_rev. exact H.
Qed.

Lemma trim_padded (p s q : jsstring) :
  forallb is_white_space p = true ->
  forallb is_white_space q = true ->
  trim (p ++ s ++ q) = trim s.
Proof.
  intros Hp Hq. unfold trim. rewrite (trim_start_padded p _ Hp).
  destruct (trim_start s) as [|c t] eqn:Es.
  - apply trim_start_nil_iff in Es.
    assert (trim_start (s ++ q) = []) as ->; [|reflexivity].
    apply trim_start_nil_iff. rewrite forallb_app, Es, Hq. reflexivity.
  - rewrite trim_start_app by (rewrite Es; discriminate).
    rewrite Es. apply trim_end_padded, Hq.
Qed.

End MoreBuiltins.

(** ** More on the gateway *)

Module GatewayMore.

Import Gateway GatewayFacts.

(** X2.  Every reply of the route has status 200 and is either an
    envelope [{ success: false, error: <message> }] the gateway builds
    itself, or what [JSON.stringify] writes of the body the upstream
    answered to the outbound call of this request.  So the gateway
    never makes up a success: a reply whose [success] is truthy is of
    the second kind. *)
Theorem success_only_from_upstream (fetch : jsstring -> result Response)
    (title : query_value) (status : N) (body : value) :
  In (Effect (Send status body)) (trace (serve fetch title)) ->
  status = 200
  /\ ((exists msg,
         body = VObject [(lit "success", VBool false);
                         (lit "error", VString msg)])
      \/ (exists url r data,
            In (FetchGET url) (trace (serve fetch title))
            /\ fetch url = Ok r /\ json r = Ok data
            /\ body = serialized data))
  /\ (ToBoolean (field body (lit "success")) = true ->
      exists url r data,
        In (FetchGET url) (trace (serve fetch title))
        /\ fetch url = Ok r /\ json r = Ok data
        /\ body = serialized data).
Proof.
  intros Hin.
  assert (status = 200
          /\ ((exists msg, body = failure msg)
              \/ (exists url r data,
                    In (FetchGET url) (trace (serve fetch title))
                    /\ fetch url = Ok r /\ json r = Ok data
                    /\ body = serialized data))) as (Hst & Hb).
  { revert Hin. rewrite serve_cases.
    destruct (truthy title).
    2:{ intros [H|[]]. injection H as <- <-. split; [reflexivity|]. left. eexists. reflexivity. }
    destruct (ToString title) as [s|e].
    2:{ intros [H|[]]. injection H as <- <-. split; [reflexivity|]. left. eexists. reflexivity. }
    destruct (encode s) as [encoded|].
    2:{ intros [H|[]]. injection H as <- <-. split; [reflexivity|]. left. eexists. reflexivity. }
    destruct (fetch (upstream ++ encoded)) as [r|e] eqn:Ef.
    - destruct (json r) as [data|e] eqn:Ej.
      + intros [H|[H|[]]]; [discriminate|]. injection H as <- <-.
        split; [reflexivity|]. right.
        exists (upstream ++ encoded), r, data. cbn. auto.
      + intros [H|[H|[]]]; [discriminate|]. injection H as <- <-.
        split; [reflexivity|]. left. eexists. reflexivity.
    - intros [H|[H|[]]]; [discriminate|]. injection H as <- <-.
      split; [reflexivity|]. left. eexists. reflexivity. }
  split; [exact Hst|]. split; [exact Hb|].
  intros Hs. destruct Hb as [(msg & ->)|Hb]; [|exact Hb].
  cbn in Hs. discriminate.
Qed.

Lemma success_only_from_upstream_witness :
  200 = 200
  /\ ((exists msg,
         descriptor = VObject [(lit "success", VBool false);
                               (lit "error", VString msg)])
      \/ (exists url r data,
            In (FetchGET url)
               (trace (serve (answering descriptor) (QString (lit "x"))))
            /\ answering descriptor url = Ok r /\ json r = Ok data
            /\ descriptor = serialized data))
  /\ (ToBoolean (field descriptor (lit "success")) = true ->
      exists url r data,
        In (FetchGET url)
           (trace (serve (answering descriptor) (QString (lit "x"))))
        /\ answering descriptor url = Ok r /\ json r = Ok data
        /\ descriptor = serialized data).
Proof.
  apply (success_only_from_upstream (answering descriptor) (QString (lit "x"))
           200 descriptor).
  vm_compute. right. left. reflexivity.
Defined.

(** X3.  The outbound URL of a string title is the fixed address followed by
    unescaped characters and [%XX] escapes only: nothing in the title
    ends the [title] parameter or opens another part of the URL. *)
Theorem outbound_query_is_one_parameter (fetch : jsstring -> result Response)
    (s url : jsstring) :
  Forall (fun c => c < 0x10000) s ->
  In (FetchGET url) (trace (serve fetch (QString s))) ->
  exists encoded,
    url = upstream ++ encoded
    /\ encode s = Some encoded
    /\ forall c, In c encoded -> url_safe c = true /\ ~ In c (lit " &=#?/+:;,@").
Proof.
  intros Hs Hin.
  destruct (serve_outbound _ _ _ Hin) as (s' & encoded & _ & Et & Ee & ->).
  cbn [ToString] in Et. injection Et as <-.
  exists encoded. split; [reflexivity|]. split; [exact Ee|].
  intros c Hc.
  pose proof (encode_url_safe _ _ Hs Ee) as Hsafe.
  rewrite forallb_forall in Hsafe.
  split; [apply Hsafe, Hc|apply url_safe_no_delimiter, Hsafe, Hc].
Qed.

Lemma outbound_query_is_one_parameter_witness :
  exists encoded,
    upstream ++ lit "a%26b%3D1%20%23" = upstream ++ encoded
    /\ encode (lit "a&b=1 #") = Some encoded
    /\ forall c, In c encoded -> url_safe c = true /\ ~ In c (lit " &=#?/+:;,@").
Proof.
  apply (outbound_query_is_one_parameter (answering descriptor) (lit "a&b=1 #")
           (upstream ++ lit "a%26b%3D1%20%23")).
  - vm_compute. repeat constructor.
  - vm_compute. left. reflexivity.
Defined.

(** X4.  A title given twice ([?title=a&title=b]) passes the validation and
    goes upstream as one value, the two joined by an escaped comma. *)
Theorem repeated_title_joined (fetch : jsstring -> result Response)
    (a b ea eb : jsstring) :
  encode a = Some ea ->
  encode b = Some eb ->
  exists body,
    serve fetch (QArray [QString a; QString b]) =
    relayed (upstream ++ ea ++ lit "%2C" ++ eb) body.
Proof.
  intros Ha Hb. rewrite serve_cases. cbn [truthy ToString map join].
  rewrite (encode_app a _ ea Ha).
  change (lit "," ++ b) with (0x2C :: b). cbn [encode].
  change (always_unescaped 44) with false.
  change (is_trailing_surrogate 44) with false.
  change (is_leading_surrogate 44) with false.
  rewrite Hb. cbn [option_map].
  change (escape 44) with (lit "%2C").
  destruct (fetch _) as [r|e]; [destruct (json r) as [data|e]|];
    eexists; reflexivity.
Qed.

Lemma repeated_title_joined_witness :
  exists body,
    serve (answering descriptor) (QArray [QString (lit "a b"); QString (lit "c")]) =
    relayed (upstream ++ lit "a%20b" ++ lit "%2C" ++ lit "c") body.
Proof.
  apply (repeated_title_joined (answering descriptor)
           (lit "a b") (lit "c") (lit "a%20b") (lit "c")); reflexivity.
Defined.

(** X6.  A title made of letters, digits and the marks [- _ . ! ~ * ' ( )]
    only, as the titles of the documented format are, goes upstream as
    it is. *)
Theorem plain_title_verbatim (fetch : jsstring -> result Response)
    (s : jsstring) :
  s <> [] ->
  forallb always_unescaped s = true ->
  exists body, serve fetch (QString s) = relayed (upstream ++ s) body.
Proof.
  intros Hs Hu. rewrite serve_cases. cbn [truthy ToString].
  destruct s; [contradiction|]. cbn [is_empty negb].
  rewrite (encode_unescaped _ Hu).
  destruct (fetch _) as [r|e]; [destruct (json r) as [data|e]|];
    eexists; reflexivity.
Qed.

Lemma plain_title_verbatim_witness :
  exists body,
    serve (answering descriptor) (QString (lit "avengers.endgame")) =
    relayed (upstream ++ lit "avengers.endgame") body.
Proof.
  apply (plain_title_verbatim (answering descriptor) (lit "avengers.endgame")).
  - vm_compute. discriminate.
  - reflexivity.
Defined.

End GatewayMore.

(** ** More on [fetchStream] *)

Module FetchStreamMore.

Import MediaPlayer Screen.



(** X11.  On a body that is not [null] and whose [success] is falsy or
    missing, the stored error is the body's [error] field as it is,
    [undefined] when there is none, and the alert shows that field when
    it is truthy and ["Failed to get stream"] otherwise. *)
Theorem failure_alert_falls_back (eng : Engine)
    (fetch : jsstring -> result Response) (others : list (State -> State))
    (title : jsstring) (st : State) (url : jsstring) (r : Response)
    (data : value) :
  is_empty (trim title) = false ->
  stream_url eng title = Ok url ->
  fetch url = Ok r ->
  json r = Ok data ->
  data <> VNull -> data <> VUndefined ->
  ToBoolean (field data (lit "success")) = false ->
  let o := exec fetch others (fetchStream eng title) st in
  error (final o) = field data (lit "error")
  /\ loading (final o) = false
  /\ In (Effect (AlertAlert (lit "Error")
           (if ToBoolean (field data (lit "error"))
            then field data (lit "error")
            else VString (lit "Failed to get stream"))))
        (trace o).
Proof.
  intros Ht Hu Hf Hj Hn Hd Hs. cbv zeta.
  assert (Hget : forall q, get eng data q = Ok (field data q))
    by (destruct data; try contradiction; reflexivity).
  unfold fetchStream. steps. rewrite Ht. steps. rewrite Hu. steps.
  rewrite Hf. steps. rewrite Hj. steps. rewrite (Hget (lit "success")). steps.
  rewrite Hs. steps. rewrite (Hget (lit "error")). steps.
  repeat split. do 4 apply in_cons. apply in_eq.
Qed.

Lemma failure_alert_falls_back_witness :
  let data := VArray [] in
  let o := exec (answering data) [] (fetchStream v8 (lit "x")) initial in
  error (final o) = VUndefined
  /\ loading (final o) = false
  /\ In (Effect (AlertAlert (lit "Error") (VString (lit "Failed to get stream"))))
        (trace o).
Proof.
  cbv zeta.
  apply (failure_alert_falls_back v8 (answering (VArray [])) [] (lit "x") initial
           (API_BASE_URL ++ lit "/api/get-stream?title=x")
           (mkResponse (Ok (VArray []))) (VArray []));
    try discriminate; vm_compute; reflexivity.
Defined.

(** X12.  A body that is the JSON [null] makes [data.success] throw: the
    call reports it as a network error although the network answered. *)
Theorem null_body_is_network_error (eng : Engine)
    (fetch : jsstring -> result Response) (others : list (State -> State))
    (title : jsstring) (st : State) (url : jsstring) (r : Response) :
  is_empty (trim title) = false ->
  stream_url eng title = Ok url ->
  fetch url = Ok r ->
  json r = Ok VNull ->
  let o := exec fetch others (fetchStream eng title) st in
  error (final o) =
    VString (lit "Network error: " ++ cannot_read eng (lit "success") VNull)
  /\ loading (final o) = false
  /\ In (Effect (AlertAlert (lit "Network Error")
           (VString (lit "Cannot connect to API server"))))
        (trace o).
Proof.
  intros Ht Hu Hf Hj. cbv zeta.
  unfold fetchStream. steps. rewrite Ht. steps. rewrite Hu. steps.
  rewrite Hf. steps. rewrite Hj. steps. cbn [get]. steps.
  repeat split. do 4 apply in_cons. apply in_eq.
Qed.

Lemma null_body_is_network_error_witness :
  let o := exec (answering VNull) [] (fetchStream v8 (lit "x")) initial in
  error (final o) =
    VString (lit "Network error: Cannot read properties of null (reading 'success')")
  /\ loading (final o) = false
  /\ In (Effect (AlertAlert (lit "Network Error")
           (VString (lit "Cannot connect to API server"))))
        (trace o).
Proof.
  cbv zeta.
  apply (null_body_is_network_error v8 (answering VNull) [] (lit "x") initial
           (API_BASE_URL ++ lit "/api/get-stream?title=x")
           (mkResponse (Ok VNull)));
    vm_compute; reflexivity.
Defined.

(** X13.  A title with an unpaired surrogate passes the validation and then
    makes [encodeURIComponent] throw inside the [try]: no request goes
    out, the call reports a network error, and the widget's [isLoading],
    set before the [try], stays set. *)
Theorem unencodable_title_is_network_error (eng : Engine)
    (fetch : jsstring -> result Response) (others : list (State -> State))
    (title : jsstring) (st : State) :
  is_empty (trim title) = false ->
  isWellFormed (trim title) = false ->
  let o := exec fetch others (fetchStream eng title) st in
  trace o = [Effect (AlertAlert (lit "Network Error")
                       (VString (lit "Cannot connect to API server")))]
  /\ error (final o) = VString (lit "Network error: " ++ uri_malformed eng)
  /\ streamData (final o) = VNull
  /\ loading (final o) = false
  /\ isLoading (final o) = true.
Proof.
  intros Ht Hw. cbv zeta.
  assert (encode (trim title) = None) as He.
  { destruct (encode (trim title)) as [enc|] eqn:E; [|reflexivity].
    assert (isWellFormed (trim title) = true)
      by (apply encode_defined_iff; eauto).
    congruence. }
  unfold fetchStream. steps. rewrite Ht. steps.
  unfold stream_url, encodeURIComponent. rewrite He. steps.
  repeat split.
Qed.

Lemma unencodable_title_is_network_error_witness :
  let o := exec (answering descriptor) [] (fetchStream v8 [0x61; 0xD83C]) initial in
  trace o = [Effect (AlertAlert (lit "Network Error")
                       (VString (lit "Cannot connect to API server")))]
  /\ error (final o) = VString (lit "Network error: URI malformed")
  /\ streamData (final o) = VNull
  /\ loading (final o) = false
  /\ isLoading (final o) = true.
Proof.
  cbv zeta.
  apply (unencodable_title_is_network_error v8 (answering descriptor) []
           [0x61; 0xD83C] initial); reflexivity.
Defined.

(** White space around the title changes neither the validation nor
    the request: the URL is built from the trimmed title. *)
Theorem padded_title_same_request (eng : Engine) (p t q : jsstring) :
  forallb is_white_space p = true ->
  forallb is_white_space q = true ->
  is_empty (trim (p ++ t ++ q)) = is_empty (trim t)
  /\ stream_url eng (p ++ t ++ q) = stream_url eng t.
Proof.
  intros Hp Hq. unfold stream_url. rewrite (trim_padded p t q Hp Hq).
  split; reflexivity.
Qed.

Lemma padded_title_same_request_witness :
  is_empty (trim (lit "  " ++ lit "a b" ++ [0x0A])) = is_empty (trim (lit "a b"))
  /\ stream_url v8 (lit "  " ++ lit "a b" ++ [0x0A]) = stream_url v8 (lit "a b").
Proof.
  apply (padded_title_same_request v8 (lit "  ") (lit "a b") [0x0A]); reflexivity.
Defined.

End FetchStreamMore.

(** ** More on the screen *)

Module ScreenMore.

Import MediaPlayer Screen ScreenFacts.

(** A request of [fetchStream] is for the URL of the title it was
    called with. *)
Lemma fetchStream_requests (eng : Engine)
    (fetch : jsstring -> result Response) (others : list (State -> State))
    (title : jsstring) (st : State) (url : jsstring) :
  In (FetchGET url) (trace (exec fetch others (fetchStream eng title) st)) ->
  is_empty (trim title) = false /\ stream_url eng title = Ok url.
Proof.
  unfold fetchStream.
  destruct (is_empty (trim title)); [intros [H|[]]; discriminate|].
  steps. destruct (stream_url eng title) as [u|e]; steps;
    [|intros [H|[]]; discriminate].
  assert (url_of : forall rest,
            (forall x, In x rest -> x <> FetchGET url) ->
            In (FetchGET url)
              (Effect (ConsoleLog [VString (astral 128269 ++ lit " Searching for:");
                                   VString title])
               :: Effect (ConsoleLog [VString (astral 128225 ++ lit " API URL:");
                                      VString u])
               :: FetchGET u :: rest) ->
            false = false /\ Ok u = Ok url).
  { intros rest Hr [H|[H|[H|H]]]; try discriminate.
    - injection H as ->. auto.
    - destruct (Hr _ H eq_refl). }
  destruct (fetch u) as [r|e]; steps.
  - destruct (json r) as [data|e]; steps.
    + destruct (get eng data (lit "success")) as [success|e]; steps.
      * destruct (ToBoolean success); steps.
        -- destruct (get eng data (lit "headers")) as [h|e]; steps;
             [destruct (get eng data (lit "m3u8_url")) as [m|e]; steps|];
             apply url_of; intros x Hx; repeat (destruct Hx as [<-|Hx]; [discriminate|]);
             destruct Hx.
        -- destruct (get eng data (lit "error")) as [err|e]; steps;
             apply url_of; intros x Hx; repeat (destruct Hx as [<-|Hx]; [discriminate|]);
             destruct Hx.
      * apply url_of; intros x Hx; repeat (destruct Hx as [<-|Hx]; [discriminate|]);
          destruct Hx.
    + apply url_of; intros x Hx; repeat (destruct Hx as [<-|Hx]; [discriminate|]);
        destruct Hx.
  - apply url_of; intros x Hx; repeat (destruct Hx as [<-|Hx]; [discriminate|]);
      destruct Hx.
Qed.

(** X15.  A quick-play button fills the field with its example, and the call
    its timer makes is for the title the field had when the button was
    rendered: on a blank field it only shows the validation alert, and
    any request it sends is for the old title. *)
Theorem quick_play_fetches_rendered_title (eng : Engine)
    (fetch : jsstring -> result Response) (others : list (State -> State))
    (rendered : State) (example : jsstring) (meanwhile : State -> State) :
  let pressed := final (run fetch (onPressExample example) rendered) in
  let o := exec fetch others (example_timer eng rendered) (meanwhile pressed) in
  title pressed = example
  /\ (is_empty (trim (title rendered)) = true ->
      o = mkOutcome (meanwhile pressed)
            [Effect (AlertAlert (lit "Error")
               (VString (lit "Please enter movie/series title")))]
            (Ok tt))
  /\ (forall url, In (FetchGET url) (trace o) ->
      stream_url eng (title rendered) = Ok url).
Proof.
  cbv zeta. split; [reflexivity|]. split.
  - intros Hb. unfold example_timer, fetchStream. rewrite Hb. reflexivity.
  - intros url Hin. unfold example_timer in Hin.
    apply fetchStream_requests in Hin. apply Hin.
Qed.

(** The first press on a fresh screen. *)
Lemma quick_play_fetches_rendered_title_witness :
  exec (answering descriptor) [] (example_timer v8 initial)
    (final (run (answering descriptor) (onPressExample (lit "wednesday.s01e03")) initial))
  = mkOutcome (setTitle (lit "wednesday.s01e03") initial)
      [Effect (AlertAlert (lit "Error")
         (VString (lit "Please enter movie/series title")))]
      (Ok tt).
Proof.
  apply (proj1 (proj2 (quick_play_fetches_rendered_title v8 (answering descriptor) []
                         initial (lit "wednesday.s01e03") (fun s => s)))).
  reflexivity.
Defined.

(** X16.  A burst of progress callbacks while the widget is loading or after
    the end changes nothing; otherwise the last one gives the current
    time and no other cell changes. *)
Theorem progress_burst (st : State) (ds : list OnProgressData) :
  (isLoading st = true \/ playerState st = ENDED ->
   deliver (map onProgress ds) st = (st, []))
  /\ (isLoading st = false -> playerState st <> ENDED ->
      forall d, deliver (map onProgress (ds ++ [d])) st
                = (setCurrentTime (progress_currentTime d) st, [])).
Proof.
  split.
  - intros H. induction ds as [|d ds IH]; [reflexivity|].
    cbn [map deliver]. 
    assert (segment (onProgress d) st = mkSlice st [] (Completed (Ok tt))) as ->.
    { unfold onProgress. cbn [read bind segment].
      destruct H as [H|H]; rewrite H; [reflexivity|].
      destruct (isLoading st); reflexivity. }
    cbn [after shown]. rewrite IH. reflexivity.
  - intros Hl He. revert st Hl He.
    induction ds as [|d0 ds IH]; intros st Hl He d.
    + cbn [app map deliver]. unfold onProgress. cbn [read bind segment].
      rewrite Hl. destruct (playerState st); try contradiction; reflexivity.
    + cbn [app map deliver].
      assert (segment (onProgress d0) st
              = mkSlice (setCurrentTime (progress_currentTime d0) st) []
                  (Completed (Ok tt))) as ->.
      { unfold onProgress. cbn [read bind segment].
        rewrite Hl. destruct (playerState st); try contradiction; reflexivity. }
      cbn [after shown]. rewrite IH; [reflexivity|exact Hl|exact He].
Qed.

Lemma progress_burst_witness :
  deliver (map onProgress
             ([{| progress_currentTime := S754_finite false 1 Z0 |}]
              ++ [{| progress_currentTime := S754_finite false 3 Z0 |}]))
    initial
  = (setCurrentTime (S754_finite false 3 Z0) initial, []).
Proof.
  apply (proj2 (progress_burst initial
                  [{| progress_currentTime := S754_finite false 1 Z0 |}]));
    [reflexivity|discriminate].
Defined.

(** The handler of an event that [leaves_currentTime] does. *)
Lemma handler_leaves_currentTime (eng : Engine) (ev : event) (st : State) :
  leaves_currentTime ev = true ->
  currentTime (after (segment (handler eng ev) st)) = currentTime st.
Proof.
  destruct ev; try discriminate; intros _; reflexivity.
Qed.

Lemma deliver_app (ps qs : list (prog State effect unit)) (st : State) :
  deliver (ps ++ qs) st =
  (fst (deliver qs (fst (deliver ps st))),
   snd (deliver ps st) ++ snd (deliver qs (fst (deliver ps st)))).
Proof.
  revert st. induction ps as [|p ps IH]; intros st; cbn [app deliver fst snd].
  - destruct (deliver qs st); reflexivity.
  - rewrite IH. cbn [fst snd]. rewrite app_assoc. reflexivity.
Qed.

Lemma deliver_leaves_currentTime (eng : Engine) (evs : list event) (st : State) :
  Forall (fun ev => leaves_currentTime ev = true) evs ->
  currentTime (fst (deliver (map (handler eng) evs) st)) = currentTime st.
Proof.
  intros H. revert st. induction H as [|ev evs Hev _ IH]; intros st; [reflexivity|].
  cbn [map deliver fst]. rewrite IH. apply handler_leaves_currentTime, Hev.
Qed.

(** X17.  The end of the stream pauses the widget.  A replay, whatever
    was pressed or reported in between other than a progress, a drag of
    the slider, a clear or a new search, plays again and ends with the
    command that seeks the widget to zero, and the stored current time
    is still the one of the end of the stream. *)
Theorem replay_after_end (eng : Engine) (st : State) (evs : list event) :
  Forall (fun ev => leaves_currentTime ev = true) evs ->
  let ended := deliver [onEnd] st in
  let replayed := deliver (onEnd :: map (handler eng) evs ++ [onReplay]) st in
  (paused (fst ended) = true /\ currentTime (fst ended) = currentTime st)
  /\ playerState (fst replayed) = PLAYING
  /\ paused (fst replayed) = false
  /\ currentTime (fst replayed) = currentTime st
  /\ exists before, snd replayed = before ++ [Effect (VideoSeek zero)].
Proof.
  intros H. cbv zeta. split; [split; reflexivity|].
  change (onEnd :: map (handler eng) evs ++ [onReplay])
    with (map (handler eng) (VideoEnd :: evs) ++ [onReplay]).
  assert (Forall (fun ev => leaves_currentTime ev = true) (VideoEnd :: evs)) as H'
    by (constructor; [reflexivity|exact H]).
  rewrite deliver_app. cbn [fst snd].
  pose proof (deliver_leaves_currentTime eng _ st H') as Ht.
  destruct (deliver (map (handler eng) (VideoEnd :: evs)) st) as [st' before].
  cbn [fst snd] in *.
  repeat split; try exact Ht.
  exists before. reflexivity.
Qed.

Lemma replay_after_end_witness :
  let st := setCurrentTime (S754_finite false 3 Z0) initial in
  let ended := deliver [onEnd] st in
  let replayed :=
    deliver (onEnd :: map (handler v8) [VideoBuffer true; ControlsPaused PAUSED]
                   ++ [onReplay]) st in
  (paused (fst ended) = true /\ currentTime (fst ended) = currentTime st)
  /\ playerState (fst replayed) = PLAYING
  /\ paused (fst replayed) = false
  /\ currentTime (fst replayed) = currentTime st
  /\ exists before, snd replayed = before ++ [Effect (VideoSeek zero)].
Proof.
  cbv zeta.
  apply (replay_after_end v8 (setCurrentTime (S754_finite false 3 Z0) initial)
           [VideoBuffer true; ControlsPaused PAUSED]).
  repeat constructor.
Defined.

(** X18.  Whatever the user does, whatever the widget reports and however
    the network answers the calls that are pending, at every task
    boundary: while [loading] is set no descriptor is stored, and a
    stored descriptor is a body whose [success] was truthy. *)
Theorem loading_excludes_descriptor (eng : Engine) (s : screen) :
  reachable eng s -> consistent (cells s).
Proof. intros H. apply (reachable_consistent eng s H). Qed.

Lemma loading_excludes_descriptor_witness :
  consistent (after (segment (handler v8 (CallFetchStream (lit "slow"))) initial)).
Proof.
  apply (loading_excludes_descriptor v8
           (mkScreen
              (after (segment (handler v8 (CallFetchStream (lit "slow"))) initial))
              (suspend
                 (stopped (segment (handler v8 (CallFetchStream (lit "slow"))) initial))
                 []))).
  apply (reachable_step v8 (mkScreen initial [])).
  - apply reachable_initial.
  - apply (step_event v8 (CallFetchStream (lit "slow")) (mkScreen initial [])).
Defined.

End ScreenMore.

(** ** More on [VideoPlayerApp] *)

Module VideoPlayerAppMore.

Import VideoPlayerApp Fullscreen.

Lemma last_app_one {A} (l : list A) (x d : A) : last (l ++ [x]) d = x.
Proof.
  induction l as [|y l IH]; [reflexivity|].
  cbn [app]. destruct (l ++ [x]) eqn:E; [destruct l; discriminate|].
  cbn [last]. cbn [last] in IH. exact IH.
Qed.

Lemma deliver_fullscreen (cs : list callback) (c : callback) :
  forall st,
    exists tr,
      deliver (map handler (cs ++ [c])) st =
      (setIsFullscreen (match c with Enter => true | Exit => false end) st,
       tr ++ [Effect (match c with
                      | Enter => LockToLandscape
                      | Exit => LockToPortrait
                      end)]).
Proof.
  induction cs as [|c0 cs IH]; intros st.
  - exists []. destruct c; reflexivity.
  - cbn [app map deliver].
    destruct (IH (after (segment (handler c0) st))) as [tr Htr].
    rewrite Htr. cbn [fst snd].
    exists (shown (segment (handler c0) st) ++ tr).
    rewrite app_assoc. destruct c0; reflexivity.
Qed.

(** X20.  After any sequence of fullscreen callbacks the fullscreen flag
    agrees with the last orientation lock the component asked for
    (landscape when entered, portrait when left), and no other cell has
    changed. *)
Theorem fullscreen_follows_orientation (cs : list callback) (c : callback)
    (st : State) :
  let r := deliver (map handler (cs ++ [c])) st in
  lock (last (snd r) (FetchGET [])) = Some (isFullscreen (fst r))
  /\ fst r = setIsFullscreen (match c with Enter => true | Exit => false end) st.
Proof.
  cbv zeta. destruct (deliver_fullscreen cs c st) as [tr ->]. cbn [fst snd].
  rewrite last_app_one. split; [|reflexivity]. destruct c; reflexivity.
Qed.

Lemma app_fetchStream_success_witness :
  let o := exec (answering descriptor) []
             (fetchStream v8 (lit "wednesday.s01e03")) initial in
  completion o = Ok tt
  /\ loading (final o) = false
  /\ streamData (final o) = descriptor.
Proof.
  cbv zeta.
  apply (VideoPlayerAppFacts.app_fetchStream_success v8 (answering descriptor) []
           (lit "wednesday.s01e03") initial
           (API_BASE_URL ++ lit "/api/get-stream?title=wednesday.s01e03")
           (mkResponse (Ok descriptor)) descriptor);
    vm_compute; reflexivity.
Defined.

Lemma app_fetchStream_failure_witness :
  let o := run (answering not_found) (fetchStream v8 (lit "slow")) initial in
  completion o = Ok tt
  /\ loading (final o) = false
  /\ streamData (final o) = VNull
  /\ error (final o) = VString (lit "Not found").
Proof.
  cbv zeta.
  apply (VideoPlayerAppFacts.app_fetchStream_failure v8 (answering not_found)
           (lit "slow") initial
           (API_BASE_URL ++ lit "/api/get-stream?title=slow")
           (mkResponse (Ok not_found)) not_found);
    vm_compute; reflexivity.
Defined.

End VideoPlayerAppMore.

(** ** Witnesses *)

Module MoreWitnesses.

Import MediaPlayer.

Lemma fetchStream_white_space_title_witness :
  exec (answering descriptor) [] (fetchStream v8 [0x20; 0x09; 0x3000]) initial =
  mkOutcome initial
    [Effect (AlertAlert (lit "Error")
       (VString (lit "Please enter movie/series title")))]
    (Ok tt).
Proof.
  apply (FetchStreamFacts.fetchStream_white_space_title v8 (answering descriptor) []
           [0x20; 0x09; 0x3000] initial).
  reflexivity.
Defined.

Lemma fetchStream_exception_witness :
  let e := mkExn (lit "TypeError") (lit "Network request failed") in
  let o := exec (rejecting e) [] (fetchStream v8 (lit "x")) initial in
  completion o = Ok tt
  /\ loading (final o) = false
  /\ error (final o) = VString (lit "Network error: " ++ lit "Network request failed")
  /\ ToBoolean (error (final o)) = true.
Proof.
  cbv zeta.
  apply (FetchStreamFacts.fetchStream_exception v8
           (rejecting (mkExn (lit "TypeError") (lit "Network request failed"))) []
           (lit "x") initial (API_BASE_URL ++ lit "/api/get-stream?title=x")
           (mkExn (lit "TypeError") (lit "Network request failed"))).
  - reflexivity.
  - reflexivity.
  - left. reflexivity.
Defined.

Lemma fetchStream_clears_loading_witness :
  let o := exec (answering VNull) [] (fetchStream v8 (lit "x")) initial in
  loading (final o) = false /\ completion o = Ok tt.
Proof.
  cbv zeta.
  apply (FetchStreamFacts.fetchStream_clears_loading v8 (answering VNull) []
           (lit "x") initial).
  reflexivity.
Defined.

End MoreWitnesses.

(** ** Titles do not collide *)

Module Collisions.

Import Decoding.

Lemma unhex_hex (d : N) : d < 16 -> unhex (hex_digit d) = d.
Proof.
  intros H. unfold unhex, hex_digit.
  destruct (N.ltb_spec d 10).
  - destruct (N.ltb_spec (48 + d) 65); lia.
  - destruct (N.ltb_spec (65 + (d - 10)) 65); lia.
Qed.

Lemma octet_of_percent (o : N) :
  o < 256 -> octet_of (hex_digit (o / 16)) (hex_digit (o mod 16)) = o.
Proof.
  intros H. unfold octet_of.
  rewrite !unhex_hex.
  - symmetry. apply N.div_mod'.
  - apply N.mod_upper_bound; discriminate.
  - apply N.Div0.div_lt_upper_bound; lia.
Qed.


Lemma decode_plain (c : codeunit) (r : jsstring) :
  c <> 0x25 -> decode (c :: r) = option_map (cons c) (decode r).
Proof.
  intros H. cbn [decode]. apply N.eqb_neq in H. rewrite H. reflexivity.
Qed.

Lemma decode_percent (h1 l1 : codeunit) (s2 : jsstring) :
  decode (0x25 :: h1 :: l1 :: s2) =
  if octet_of h1 l1 <? 0x80
  then option_map (app (utf16 (code_point (octet_of h1 l1) 0 0 0))) (decode s2)
  else
    match s2 with
    | _ :: h2 :: l2 :: s3 =>
        if octet_of h1 l1 <? 0xE0
        then option_map
               (app (utf16 (code_point (octet_of h1 l1) (octet_of h2 l2) 0 0)))
               (decode s3)
        else
          match s3 with
          | _ :: h3 :: l3 :: s4 =>
              if octet_of h1 l1 <? 0xF0
              then option_map
                     (app (utf16 (code_point (octet_of h1 l1) (octet_of h2 l2)
                                    (octet_of h3 l3) 0)))
                     (decode s4)
              else
                match s4 with
                | _ :: h4 :: l4 :: s5 =>
                    option_map
                      (app (utf16 (code_point (octet_of h1 l1) (octet_of h2 l2)
                                     (octet_of h3 l3) (octet_of h4 l4))))
                      (decode s5)
                | _ => None
                end
          | _ => None
          end
    | _ => None
    end.
Proof. reflexivity. Qed.

Ltac quotient a b q :=
  assert (a / b < q) by (apply N.Div0.div_lt_upper_bound; lia).
Ltac remainder a b :=
  assert (a mod b < b) by (apply N.mod_upper_bound; discriminate).
Ltac decide_ltb :=
  repeat match goal with
  | |- context [?a <? ?b] => destruct (N.ltb_spec a b); try lia
  end.

Lemma decode_escape (cp : N) (r : jsstring) :
  cp < 0x110000 ->
  decode (escape cp ++ r) = option_map (app (utf16 cp)) (decode r).
Proof.
  intros H. unfold escape, utf8.
  pose proof (N.div_mod' cp 0x40) as E1.
  pose proof (N.div_mod' (cp / 0x40) 0x40) as E2.
  pose proof (N.div_mod' (cp / 0x1000) 0x40) as E3.
  rewrite N.Div0.div_div in E2. change (0x40 * 0x40) with 0x1000 in E2.
  rewrite N.Div0.div_div in E3. change (0x1000 * 0x40) with 0x40000 in E3.
  remainder cp 0x40. remainder (cp / 0x40) 0x40. remainder (cp / 0x1000) 0x40.
  remember (cp / 0x40000) as q3. remember ((cp / 0x1000) mod 0x40) as r3.
  remember (cp / 0x1000) as q2. remember ((cp / 0x40) mod 0x40) as r2.
  remember (cp / 0x40) as q1. remember (cp mod 0x40) as r1.
  clear Heqq1 Heqq2 Heqq3 Heqr1 Heqr2 Heqr3.
  destruct (N.ltb_spec cp 0x80).
  { cbn [map List.concat percent app]. rewrite decode_percent.
    rewrite octet_of_percent by lia.
    unfold code_point. decide_ltb. reflexivity. }
  destruct (N.ltb_spec cp 0x800).
  { cbn [map List.concat percent app]. rewrite decode_percent.
    rewrite !octet_of_percent by lia.
    unfold code_point. decide_ltb.
    replace ((192 + q1 - 192) * 64 + (128 + r1 - 128)) with cp by lia.
    reflexivity. }
  destruct (N.ltb_spec cp 0x10000).
  { cbn [map List.concat percent app]. rewrite decode_percent.
    rewrite !octet_of_percent by lia.
    unfold code_point. decide_ltb.
    replace ((224 + q2 - 224) * 4096 + (128 + r2 - 128) * 64 + (128 + r1 - 128))
      with cp by lia.
    reflexivity. }
  cbn [map List.concat percent app]. rewrite decode_percent.
  rewrite !octet_of_percent by lia.
  unfold code_point. decide_ltb.
  replace ((240 + q3 - 240) * 262144 + (128 + r3 - 128) * 4096
           + (128 + r2 - 128) * 64 + (128 + r1 - 128))
    with cp by lia.
  reflexivity.
Qed.

Lemma utf16_pair (c d : codeunit) :
  is_leading_surrogate c = true -> is_trailing_surrogate d = true ->
  utf16 (surrogate_pair c d) = [c; d].
Proof.
  unfold is_leading_surrogate, is_trailing_surrogate, surrogate_pair, utf16.
  intros Hc Hd.
  apply andb_true_iff in Hc, Hd. destruct Hc as [Hc1 Hc2], Hd as [Hd1 Hd2].
  apply N.leb_le in Hc1, Hc2, Hd1, Hd2.
  destruct (N.ltb_spec ((c - 55296) * 1024 + (d - 56320) + 65536) 65536); [lia|].
  replace ((c - 55296) * 1024 + (d - 56320) + 65536 - 65536)
    with ((d - 56320) + (c - 55296) * 1024) by lia.
  rewrite N.div_add by discriminate. rewrite N.Div0.mod_add.
  rewrite N.div_small, N.mod_small by lia.
  f_equal; [|f_equal]; lia.
Qed.

Lemma utf16_one (c : codeunit) : c < 0x10000 -> utf16 c = [c].
Proof.
  intros H. unfold utf16. destruct (N.ltb_spec c 0x10000); [reflexivity|lia].
Qed.

Lemma unescaped_not_percent (c : codeunit) :
  always_unescaped c = true -> c <> 0x25.
Proof. intros H ->. discriminate H. Qed.

Lemma decode_encode (s es : jsstring) :
  Forall (fun c => c < 0x10000) s ->
  encode s = Some es ->
  decode es = Some s.
Proof.
  assert (both : forall n (s es : jsstring), (List.length s <= n)%nat ->
            Forall (fun c => c < 0x10000) s ->
            encode s = Some es -> decode es = Some s).
  { clear s es. induction n as [|n IH]; intros s es Hn Hs He.
    - destruct s; [|cbn in Hn; lia]. injection He as <-. reflexivity.
    - destruct s as [|c s]; [injection He as <-; reflexivity|].
      cbn [List.length] in Hn. inversion Hs as [|? ? Hc Hs']; subst.
      cbn [encode] in He.
      destruct (always_unescaped c) eqn:Eu.
      + destruct (encode s) as [r'|] eqn:Er; [|discriminate].
        injection He as <-.
        rewrite (decode_plain _ _ (unescaped_not_percent _ Eu)).
        rewrite (IH s r') by (lia || assumption). reflexivity.
      + destruct (is_trailing_surrogate c); [discriminate|].
        destruct (is_leading_surrogate c) eqn:El.
        * destruct s as [|d s]; [discriminate|].
          cbn [List.length] in Hn. inversion Hs' as [|? ? Hd Hs'']; subst.
          destruct (is_trailing_surrogate d) eqn:Et; [|discriminate].
          destruct (encode s) as [r'|] eqn:Er; [|discriminate].
          injection He as <-.
          rewrite (decode_escape _ _ (surrogate_pair_bound _ _ El Et)).
          rewrite (IH s r') by (lia || assumption).
          cbn [option_map]. rewrite (utf16_pair _ _ El Et). reflexivity.
        * destruct (encode s) as [r'|] eqn:Er; [|discriminate].
          injection He as <-.
          rewrite decode_escape by lia.
          rewrite (IH s r') by (lia || assumption).
          cbn [option_map]. rewrite (utf16_one _ Hc). reflexivity. }
  apply (both (List.length s)). lia.
Qed.

(** Two strings with the same encoding are the same string. *)
Lemma encode_injective (s t es : jsstring) :
  Forall (fun c => c < 0x10000) s ->
  Forall (fun c => c < 0x10000) t ->
  encode s = Some es -> encode t = Some es -> s = t.
Proof.
  intros Hs Ht Es Et.
  pose proof (decode_encode _ _ Hs Es) as Ds.
  pose proof (decode_encode _ _ Ht Et) as Dt.
  congruence.
Qed.

Lemma Forall_trim_start (P : codeunit -> Prop) (s : jsstring) :
  Forall P s -> Forall P (trim_start s).
Proof.
  induction 1 as [|c s Hc Hs IH]; [constructor|].
  cbn [trim_start]. destruct (is_white_space c); [exact IH|constructor; assumption].
Qed.

Lemma Forall_trim (P : codeunit -> Prop) (s : jsstring) :
  Forall P s -> Forall P (trim s).
Proof.
  intros H. unfold trim, trim_end.
  apply Forall_rev, Forall_trim_start, Forall_rev, Forall_trim_start, H.
Qed.

(** X5.  The gateway sends two string titles to the same URL only when they
    are the same title. *)
Theorem gateway_titles_do_not_collide
    (fetch fetch' : jsstring -> result Response) (s t url : jsstring) :
  Forall (fun c => c < 0x10000) s ->
  Forall (fun c => c < 0x10000) t ->
  In (FetchGET url) (trace (Gateway.serve fetch (Gateway.QString s))) ->
  In (FetchGET url) (trace (Gateway.serve fetch' (Gateway.QString t))) ->
  s = t.
Proof.
  intros Hs Ht Is It.
  destruct (GatewayFacts.serve_outbound _ _ _ Is) as (s' & es & _ & Ts & Es & Us).
  destruct (GatewayFacts.serve_outbound _ _ _ It) as (t' & et & _ & Tt & Et & Ut).
  cbn [Gateway.ToString] in Ts, Tt. injection Ts as <-. injection Tt as <-.
  rewrite Us in Ut. apply app_inv_head in Ut. subst et.
  exact (encode_injective _ _ _ Hs Ht Es Et).
Qed.

Lemma gateway_titles_do_not_collide_witness : lit "a b" = lit "a b".
Proof.
  apply (gateway_titles_do_not_collide (answering descriptor) (answering not_found)
           (lit "a b") (lit "a b") (Gateway.upstream ++ lit "a%20b")).
  - vm_compute. repeat constructor.
  - vm_compute. repeat constructor.
  - vm_compute. left. reflexivity.
  - vm_compute. left. reflexivity.
Defined.

(** X14.  The player requests the same URL for two titles exactly when they
    are equal once trimmed. *)
Theorem player_titles_collide_iff_trimmed_equal (eng : Engine)
    (a b url : jsstring) :
  Forall (fun c => c < 0x10000) a ->
  Forall (fun c => c < 0x10000) b ->
  MediaPlayer.stream_url eng a = Ok url ->
  (MediaPlayer.stream_url eng b = Ok url <-> trim a = trim b).
Proof.
  intros Ha Hb Ua. split.
  - intros Ub. unfold MediaPlayer.stream_url, encodeURIComponent in Ua, Ub.
    destruct (encode (trim a)) as [ea|] eqn:Ea; [|discriminate].
    destruct (encode (trim b)) as [eb|] eqn:Eb; [|discriminate].
    assert (API_BASE_URL ++ lit "/api/get-stream?title=" ++ eb
            = API_BASE_URL ++ lit "/api/get-stream?title=" ++ ea) as U
      by congruence.
    apply app_inv_head in U. apply app_inv_head in U. subst eb.
    symmetry.
    exact (encode_injective _ _ _ (Forall_trim _ _ Hb) (Forall_trim _ _ Ha) Eb Ea).
  - intros E. unfold MediaPlayer.stream_url in *. rewrite <- E. exact Ua.
Qed.

Lemma player_titles_collide_iff_trimmed_equal_witness :
  MediaPlayer.stream_url v8 (lit " a b ") =
    Ok (API_BASE_URL ++ lit "/api/get-stream?title=a%20b")
  <-> trim (lit "a b") = trim (lit " a b ").
Proof.
  apply (player_titles_collide_iff_trimmed_equal v8 (lit "a b") (lit " a b ")
           (API_BASE_URL ++ lit "/api/get-stream?title=a%20b")).
  - vm_compute. repeat constructor.
  - vm_compute. repeat constructor.
  - reflexivity.
Defined.

End Collisions.
